(** * The configure.ac version rewriter of [.tito/customtagger.py]

    A shallow embedding of [CustomVersionTagger]: the regular-expression
    substitution that rewrites the version argument of [AC_INIT], the
    file and process effects around it, and the properties stated for
    them.

    Text is a list of Unicode code points, the way a Python [str] is.
    File contents are the text that Python's text-mode [read] returns
    and [write] accepts; the codec and newline handling of the I/O layer
    are below this model. *)

From Stdlib Require Import NArith Lia.
From stdpp Require Import base option list strings gmap.

Local Open Scope N_scope.

(** ** Text *)

Abbreviation char := N (only parsing).
Abbreviation str := (list N) (only parsing).

(** A Python string literal made of ASCII characters. *)
Definition lit (s : String.string) : str :=
  map Ascii.N_of_ascii (String.list_ascii_of_string s).

Definition LF : char := 10.          (* "\n" *)
Definition COMMA : char := 44.       (* "," *)
Definition DASH : char := 45.        (* "-" *)
Definition LBRACKET : char := 91.    (* "[" *)
Definition BACKSLASH : char := 92.   (* "\\" *)
Definition RBRACKET : char := 93.    (* "]" *)

Definition AC_INIT : str := Eval cbv in lit "AC_INIT".

(** ** The pattern [(AC_INIT.*?,\s+)\[.*?\]]

    [re] matches by backtracking.  Each piece of the pattern is a
    function that takes the continuation [k] of the match, tries its
    alternatives in the order the engine does and returns what it
    consumed together with the continuation's result. *)

(** [\s] on a [str] pattern: [Py_UNICODE_ISSPACE]. *)
Definition is_space (c : char) : bool :=
  ((9 <=? c) && (c <=? 13)) || ((28 <=? c) && (c <=? 32))
  || (c =? 133) || (c =? 160) || (c =? 5760)
  || ((8192 <=? c) && (c <=? 8202))
  || (c =? 8232) || (c =? 8233) || (c =? 8239) || (c =? 8287)
  || (c =? 12288).

(** [.] without [re.DOTALL]: any character but a newline. *)
Definition is_dot (c : char) : bool := negb (c =? LF).

(** A literal character. *)
Definition lit_char {A} (x : char) (k : str → option A) (s : str) : option A :=
  match s with
  | c :: s' => if c =? x then k s' else None
  | [] => None
  end.

(** A literal word. *)
Fixpoint lit_word {A} (p : str) (k : str → option A) (s : str) : option A :=
  match p with
  | [] => k s
  | x :: p' => lit_char x (lit_word p' k) s
  end.

(** [.*?]: the continuation is tried first, and one more character is
    consumed only when it fails. *)
Fixpoint lazy_dots {A} (k : str → option A) (s : str) : option (str * A) :=
  match k s with
  | Some a => Some ([], a)
  | None =>
      match s with
      | c :: s' =>
          if is_dot c
          then (λ r, (c :: r.1, r.2)) <$> lazy_dots k s'
          else None
      | [] => None
      end
  end.

(** [\s*], greedy: one more space is consumed first, and the
    continuation is tried at the current position only when that fails. *)
Fixpoint greedy_spaces {A} (k : str → option A) (s : str) : option (str * A) :=
  match s with
  | c :: s' =>
      if is_space c
      then match greedy_spaces k s' with
           | Some r => Some (c :: r.1, r.2)
           | None => (λ a, ([], a)) <$> k s
           end
      else (λ a, ([], a)) <$> k s
  | [] => (λ a, ([], a)) <$> k s
  end.

(** [\s+] *)
Definition greedy_spaces1 {A} (k : str → option A) (s : str) : option (str * A) :=
  match s with
  | c :: s' =>
      if is_space c
      then (λ r, (c :: r.1, r.2)) <$> greedy_spaces k s'
      else None
  | [] => None
  end.

(** The end of a successful match: what is left of the subject. *)
Definition accept (s : str) : option str := Some s.

(** [\[.*?\]]: the text between the brackets and the rest. *)
Definition bracketed (s : str) : option (str * str) :=
  lit_char LBRACKET (lazy_dots (lit_char RBRACKET accept)) s.

(** [,\s+\[.*?\]] *)
Definition comma_spaces_bracketed (s : str) : option (str * (str * str)) :=
  lit_char COMMA (greedy_spaces1 bracketed) s.

(** A match: group 1 is [AC_INIT.*?,\s+]; [old] is the text between
    the brackets; [rest] is the subject after the match. *)
Record re_match := Match { group1 : str; old : str; rest : str }.

(** Group 0, the whole matched text. *)
Definition group0 (m : re_match) : str :=
  group1 m ++ [LBRACKET] ++ old m ++ [RBRACKET].

(** The pattern tried at the start of [s]. *)
Definition match_at (s : str) : option re_match :=
  match lit_word AC_INIT (lazy_dots comma_spaces_bracketed) s with
  | Some (d, (w, (b, r))) => Some (Match (AC_INIT ++ d ++ [COMMA] ++ w) b r)
  | None => None
  end.

(** [pattern.search]: the leftmost position where the pattern matches,
    as the text skipped before it and the match. *)
Fixpoint search (s : str) : option (str * re_match) :=
  match match_at s with
  | Some m => Some ([], m)
  | None =>
      match s with
      | c :: s' => (λ r, (c :: r.1, r.2)) <$> search s'
      | [] => None
      end
  end.

(** The loop of [re.sub] with [count=0]: every match, from left to
    right, each search starting where the previous match ended.  A
    match of this pattern is never empty, so [length s] rounds are
    enough. *)
Fixpoint sub_loop (fuel : nat) (repl : re_match → str) (s : str) : str :=
  match fuel with
  | O => s
  | S fuel' =>
      match search s with
      | Some (skipped, m) => skipped ++ repl m ++ sub_loop fuel' repl (rest m)
      | None => s
      end
  end.

Definition sub_with (repl : re_match → str) (s : str) : str :=
  sub_loop (length s) repl s.

(** ** Exceptions *)

Inductive exn :=
| FileNotFoundError (path : str)
| re_error                        (* re.error, from the template compiler *)
| IndexError                      (* unknown group name, from the template compiler *)
| ValueError                      (* int() of a string of too many digits *)
| RunCommandException (cmd : str)
| Exception (what : str).         (* anything else a collaborator raises *)

(** ** The replacement template

    [re.sub] compiles a replacement string before it searches
    ([re._parser.parse_template], Python 3.12 and later, where a group
    number is written with ASCII digits only).  The compiler raises
    [re.error] for a template it cannot read, [IndexError] for a
    [\g<name>] whose name is an identifier, as the pattern names no
    group, and [ValueError] where [int] does. *)

(** The tokenizer: a backslash takes the next character with it.  A
    backslash that ends the string is an error, raised when the
    tokenizer comes to it: [Dangling] holds its place in the list of
    tokens. *)
Inductive token := Chr (c : char) | Esc (c : char) | Dangling.

Fixpoint tokenize (s : str) : list token :=
  match s with
  | [] => []
  | c :: s' =>
      if c =? BACKSLASH
      then match s' with
           | e :: s'' => Esc e :: tokenize s''
           | [] => [Dangling]
           end
      else Chr c :: tokenize s'
  end.

(** [Tokenizer.__next] with [ts] left to read: the tokenizer is one
    token ahead of the parser, so taking a token raises when the one
    after it is the backslash that ends the string. *)
Definition ahead {A} (ts : list token) (k : exn + A) : exn + A :=
  match ts with
  | Dangling :: _ => inl re_error             (* bad escape (end of pattern) *)
  | _ => k
  end.

(** A compiled template: literal text and group references. *)
Inductive piece := Literal (t : str) | Group (index : N).

Definition is_digit (c : char) : bool := (48 <=? c) && (c <=? 57).
Definition is_octdigit (c : char) : bool := (48 <=? c) && (c <=? 55).
Definition is_ascii_letter (c : char) : bool :=
  ((65 <=? c) && (c <=? 90)) || ((97 <=? c) && (c <=? 122)).
Definition digit (c : char) : N := c - 48.

(** [ESCAPES] of [re._parser] *)
Definition ESCAPES (c : char) : option char :=
  if c =? 97 then Some 7            (* \a *)
  else if c =? 98 then Some 8       (* \b *)
  else if c =? 102 then Some 12     (* \f *)
  else if c =? 110 then Some 10     (* \n *)
  else if c =? 114 then Some 13     (* \r *)
  else if c =? 116 then Some 9      (* \t *)
  else if c =? 118 then Some 11     (* \v *)
  else if c =? BACKSLASH then Some BACKSLASH
  else None.

(** [str.isidentifier]: a character of the class XID_Start or an
    underscore, then characters of the class XID_Continue.  The two
    classes are those of the Unicode database, here in its version
    14.0.0 ([unicodedata.unidata_version] of CPython 3.11; a later
    database adds the letters and marks of the scripts it encodes), as
    ranges of code points. *)
Definition XID_Start : list (N * N) :=
  [(65, 90); (97, 122); (170, 170); (181, 181); (186, 186); (192, 214); (216, 246);
   (248, 705); (710, 721); (736, 740); (748, 748); (750, 750); (880, 884); (886, 887);
   (891, 893); (895, 895); (902, 902); (904, 906); (908, 908); (910, 929); (931, 1013);
   (1015, 1153); (1162, 1327); (1329, 1366); (1369, 1369); (1376, 1416); (1488, 1514);
   (1519, 1522); (1568, 1610); (1646, 1647); (1649, 1747); (1749, 1749); (1765, 1766);
   (1774, 1775); (1786, 1788); (1791, 1791); (1808, 1808); (1810, 1839); (1869, 1957);
   (1969, 1969); (1994, 2026); (2036, 2037); (2042, 2042); (2048, 2069); (2074, 2074);
   (2084, 2084); (2088, 2088); (2112, 2136); (2144, 2154); (2160, 2183); (2185, 2190);
   (2208, 2249); (2308, 2361); (2365, 2365); (2384, 2384); (2392, 2401); (2417, 2432);
   (2437, 2444); (2447, 2448); (2451, 2472); (2474, 2480); (2482, 2482); (2486, 2489);
   (2493, 2493); (2510, 2510); (2524, 2525); (2527, 2529); (2544, 2545); (2556, 2556);
   (2565, 2570); (2575, 2576); (2579, 2600); (2602, 2608); (2610, 2611); (2613, 2614);
   (2616, 2617); (2649, 2652); (2654, 2654); (2674, 2676); (2693, 2701); (2703, 2705);
   (2707, 2728); (2730, 2736); (2738, 2739); (2741, 2745); (2749, 2749); (2768, 2768);
   (2784, 2785); (2809, 2809); (2821, 2828); (2831, 2832); (2835, 2856); (2858, 2864);
   (2866, 2867); (2869, 2873); (2877, 2877); (2908, 2909); (2911, 2913); (2929, 2929);
   (2947, 2947); (2949, 2954); (2958, 2960); (2962, 2965); (2969, 2970); (2972, 2972);
   (2974, 2975); (2979, 2980); (2984, 2986); (2990, 3001); (3024, 3024); (3077, 3084);
   (3086, 3088); (3090, 3112); (3114, 3129); (3133, 3133); (3160, 3162); (3165, 3165);
   (3168, 3169); (3200, 3200); (3205, 3212); (3214, 3216); (3218, 3240); (3242, 3251);
   (3253, 3257); (3261, 3261); (3293, 3294); (3296, 3297); (3313, 3314); (3332, 3340);
   (3342, 3344); (3346, 3386); (3389, 3389); (3406, 3406); (3412, 3414); (3423, 3425);
   (3450, 3455); (3461, 3478); (3482, 3505); (3507, 3515); (3517, 3517); (3520, 3526);
   (3585, 3632); (3634, 3634); (3648, 3654); (3713, 3714); (3716, 3716); (3718, 3722);
   (3724, 3747); (3749, 3749); (3751, 3760); (3762, 3762); (3773, 3773); (3776, 3780);
   (3782, 3782); (3804, 3807); (3840, 3840); (3904, 3911); (3913, 3948); (3976, 3980);
   (4096, 4138); (4159, 4159); (4176, 4181); (4186, 4189); (4193, 4193); (4197, 4198);
   (4206, 4208); (4213, 4225); (4238, 4238); (4256, 4293); (4295, 4295); (4301, 4301);
   (4304, 4346); (4348, 4680); (4682, 4685); (4688, 4694); (4696, 4696); (4698, 4701);
   (4704, 4744); (4746, 4749); (4752, 4784); (4786, 4789); (4792, 4798); (4800, 4800);
   (4802, 4805); (4808, 4822); (4824, 4880); (4882, 4885); (4888, 4954); (4992, 5007);
   (5024, 5109); (5112, 5117); (5121, 5740); (5743, 5759); (5761, 5786); (5792, 5866);
   (5870, 5880); (5888, 5905); (5919, 5937); (5952, 5969); (5984, 5996); (5998, 6000);
   (6016, 6067); (6103, 6103); (6108, 6108); (6176, 6264); (6272, 6312); (6314, 6314);
   (6320, 6389); (6400, 6430); (6480, 6509); (6512, 6516); (6528, 6571); (6576, 6601);
   (6656, 6678); (6688, 6740); (6823, 6823); (6917, 6963); (6981, 6988); (7043, 7072);
   (7086, 7087); (7098, 7141); (7168, 7203); (7245, 7247); (7258, 7293); (7296, 7304);
   (7312, 7354); (7357, 7359); (7401, 7404); (7406, 7411); (7413, 7414); (7418, 7418);
   (7424, 7615); (7680, 7957); (7960, 7965); (7968, 8005); (8008, 8013); (8016, 8023);
   (8025, 8025); (8027, 8027); (8029, 8029); (8031, 8061); (8064, 8116); (8118, 8124);
   (8126, 8126); (8130, 8132); (8134, 8140); (8144, 8147); (8150, 8155); (8160, 8172);
   (8178, 8180); (8182, 8188); (8305, 8305); (8319, 8319); (8336, 8348); (8450, 8450);
   (8455, 8455); (8458, 8467); (8469, 8469); (8472, 8477); (8484, 8484); (8486, 8486);
   (8488, 8488); (8490, 8505); (8508, 8511); (8517, 8521); (8526, 8526); (8544, 8584);
   (11264, 11492); (11499, 11502); (11506, 11507); (11520, 11557); (11559, 11559);
   (11565, 11565); (11568, 11623); (11631, 11631); (11648, 11670); (11680, 11686);
   (11688, 11694); (11696, 11702); (11704, 11710); (11712, 11718); (11720, 11726);
   (11728, 11734); (11736, 11742); (12293, 12295); (12321, 12329); (12337, 12341);
   (12344, 12348); (12353, 12438); (12445, 12447); (12449, 12538); (12540, 12543);
   (12549, 12591); (12593, 12686); (12704, 12735); (12784, 12799); (13312, 19903);
   (19968, 42124); (42192, 42237); (42240, 42508); (42512, 42527); (42538, 42539);
   (42560, 42606); (42623, 42653); (42656, 42735); (42775, 42783); (42786, 42888);
   (42891, 42954); (42960, 42961); (42963, 42963); (42965, 42969); (42994, 43009);
   (43011, 43013); (43015, 43018); (43020, 43042); (43072, 43123); (43138, 43187);
   (43250, 43255); (43259, 43259); (43261, 43262); (43274, 43301); (43312, 43334);
   (43360, 43388); (43396, 43442); (43471, 43471); (43488, 43492); (43494, 43503);
   (43514, 43518); (43520, 43560); (43584, 43586); (43588, 43595); (43616, 43638);
   (43642, 43642); (43646, 43695); (43697, 43697); (43701, 43702); (43705, 43709);
   (43712, 43712); (43714, 43714); (43739, 43741); (43744, 43754); (43762, 43764);
   (43777, 43782); (43785, 43790); (43793, 43798); (43808, 43814); (43816, 43822);
   (43824, 43866); (43868, 43881); (43888, 44002); (44032, 55203); (55216, 55238);
   (55243, 55291); (63744, 64109); (64112, 64217); (64256, 64262); (64275, 64279);
   (64285, 64285); (64287, 64296); (64298, 64310); (64312, 64316); (64318, 64318);
   (64320, 64321); (64323, 64324); (64326, 64433); (64467, 64605); (64612, 64829);
   (64848, 64911); (64914, 64967); (65008, 65017); (65137, 65137); (65139, 65139);
   (65143, 65143); (65145, 65145); (65147, 65147); (65149, 65149); (65151, 65276);
   (65313, 65338); (65345, 65370); (65382, 65437); (65440, 65470); (65474, 65479);
   (65482, 65487); (65490, 65495); (65498, 65500); (65536, 65547); (65549, 65574);
   (65576, 65594); (65596, 65597); (65599, 65613); (65616, 65629); (65664, 65786);
   (65856, 65908); (66176, 66204); (66208, 66256); (66304, 66335); (66349, 66378);
   (66384, 66421); (66432, 66461); (66464, 66499); (66504, 66511); (66513, 66517);
   (66560, 66717); (66736, 66771); (66776, 66811); (66816, 66855); (66864, 66915);
   (66928, 66938); (66940, 66954); (66956, 66962); (66964, 66965); (66967, 66977);
   (66979, 66993); (66995, 67001); (67003, 67004); (67072, 67382); (67392, 67413);
   (67424, 67431); (67456, 67461); (67463, 67504); (67506, 67514); (67584, 67589);
   (67592, 67592); (67594, 67637); (67639, 67640); (67644, 67644); (67647, 67669);
   (67680, 67702); (67712, 67742); (67808, 67826); (67828, 67829); (67840, 67861);
   (67872, 67897); (67968, 68023); (68030, 68031); (68096, 68096); (68112, 68115);
   (68117, 68119); (68121, 68149); (68192, 68220); (68224, 68252); (68288, 68295);
   (68297, 68324); (68352, 68405); (68416, 68437); (68448, 68466); (68480, 68497);
   (68608, 68680); (68736, 68786); (68800, 68850); (68864, 68899); (69248, 69289);
   (69296, 69297); (69376, 69404); (69415, 69415); (69424, 69445); (69488, 69505);
   (69552, 69572); (69600, 69622); (69635, 69687); (69745, 69746); (69749, 69749);
   (69763, 69807); (69840, 69864); (69891, 69926); (69956, 69956); (69959, 69959);
   (69968, 70002); (70006, 70006); (70019, 70066); (70081, 70084); (70106, 70106);
   (70108, 70108); (70144, 70161); (70163, 70187); (70272, 70278); (70280, 70280);
   (70282, 70285); (70287, 70301); (70303, 70312); (70320, 70366); (70405, 70412);
   (70415, 70416); (70419, 70440); (70442, 70448); (70450, 70451); (70453, 70457);
   (70461, 70461); (70480, 70480); (70493, 70497); (70656, 70708); (70727, 70730);
   (70751, 70753); (70784, 70831); (70852, 70853); (70855, 70855); (71040, 71086);
   (71128, 71131); (71168, 71215); (71236, 71236); (71296, 71338); (71352, 71352);
   (71424, 71450); (71488, 71494); (71680, 71723); (71840, 71903); (71935, 71942);
   (71945, 71945); (71948, 71955); (71957, 71958); (71960, 71983); (71999, 71999);
   (72001, 72001); (72096, 72103); (72106, 72144); (72161, 72161); (72163, 72163);
   (72192, 72192); (72203, 72242); (72250, 72250); (72272, 72272); (72284, 72329);
   (72349, 72349); (72368, 72440); (72704, 72712); (72714, 72750); (72768, 72768);
   (72818, 72847); (72960, 72966); (72968, 72969); (72971, 73008); (73030, 73030);
   (73056, 73061); (73063, 73064); (73066, 73097); (73112, 73112); (73440, 73458);
   (73648, 73648); (73728, 74649); (74752, 74862); (74880, 75075); (77712, 77808);
   (77824, 78894); (82944, 83526); (92160, 92728); (92736, 92766); (92784, 92862);
   (92880, 92909); (92928, 92975); (92992, 92995); (93027, 93047); (93053, 93071);
   (93760, 93823); (93952, 94026); (94032, 94032); (94099, 94111); (94176, 94177);
   (94179, 94179); (94208, 100343); (100352, 101589); (101632, 101640);
   (110576, 110579); (110581, 110587); (110589, 110590); (110592, 110882);
   (110928, 110930); (110948, 110951); (110960, 111355); (113664, 113770);
   (113776, 113788); (113792, 113800); (113808, 113817); (119808, 119892);
   (119894, 119964); (119966, 119967); (119970, 119970); (119973, 119974);
   (119977, 119980); (119982, 119993); (119995, 119995); (119997, 120003);
   (120005, 120069); (120071, 120074); (120077, 120084); (120086, 120092);
   (120094, 120121); (120123, 120126); (120128, 120132); (120134, 120134);
   (120138, 120144); (120146, 120485); (120488, 120512); (120514, 120538);
   (120540, 120570); (120572, 120596); (120598, 120628); (120630, 120654);
   (120656, 120686); (120688, 120712); (120714, 120744); (120746, 120770);
   (120772, 120779); (122624, 122654); (123136, 123180); (123191, 123197);
   (123214, 123214); (123536, 123565); (123584, 123627); (124896, 124902);
   (124904, 124907); (124909, 124910); (124912, 124926); (124928, 125124);
   (125184, 125251); (125259, 125259); (126464, 126467); (126469, 126495);
   (126497, 126498); (126500, 126500); (126503, 126503); (126505, 126514);
   (126516, 126519); (126521, 126521); (126523, 126523); (126530, 126530);
   (126535, 126535); (126537, 126537); (126539, 126539); (126541, 126543);
   (126545, 126546); (126548, 126548); (126551, 126551); (126553, 126553);
   (126555, 126555); (126557, 126557); (126559, 126559); (126561, 126562);
   (126564, 126564); (126567, 126570); (126572, 126578); (126580, 126583);
   (126585, 126588); (126590, 126590); (126592, 126601); (126603, 126619);
   (126625, 126627); (126629, 126633); (126635, 126651); (131072, 173791);
   (173824, 177976); (177984, 178205); (178208, 183969); (183984, 191456);
   (194560, 195101); (196608, 201546)].

Definition XID_Continue_only : list (N * N) :=
  [(48, 57); (95, 95); (183, 183); (768, 879); (903, 903); (1155, 1159); (1425, 1469);
   (1471, 1471); (1473, 1474); (1476, 1477); (1479, 1479); (1552, 1562); (1611, 1641);
   (1648, 1648); (1750, 1756); (1759, 1764); (1767, 1768); (1770, 1773); (1776, 1785);
   (1809, 1809); (1840, 1866); (1958, 1968); (1984, 1993); (2027, 2035); (2045, 2045);
   (2070, 2073); (2075, 2083); (2085, 2087); (2089, 2093); (2137, 2139); (2200, 2207);
   (2250, 2273); (2275, 2307); (2362, 2364); (2366, 2383); (2385, 2391); (2402, 2403);
   (2406, 2415); (2433, 2435); (2492, 2492); (2494, 2500); (2503, 2504); (2507, 2509);
   (2519, 2519); (2530, 2531); (2534, 2543); (2558, 2558); (2561, 2563); (2620, 2620);
   (2622, 2626); (2631, 2632); (2635, 2637); (2641, 2641); (2662, 2673); (2677, 2677);
   (2689, 2691); (2748, 2748); (2750, 2757); (2759, 2761); (2763, 2765); (2786, 2787);
   (2790, 2799); (2810, 2815); (2817, 2819); (2876, 2876); (2878, 2884); (2887, 2888);
   (2891, 2893); (2901, 2903); (2914, 2915); (2918, 2927); (2946, 2946); (3006, 3010);
   (3014, 3016); (3018, 3021); (3031, 3031); (3046, 3055); (3072, 3076); (3132, 3132);
   (3134, 3140); (3142, 3144); (3146, 3149); (3157, 3158); (3170, 3171); (3174, 3183);
   (3201, 3203); (3260, 3260); (3262, 3268); (3270, 3272); (3274, 3277); (3285, 3286);
   (3298, 3299); (3302, 3311); (3328, 3331); (3387, 3388); (3390, 3396); (3398, 3400);
   (3402, 3405); (3415, 3415); (3426, 3427); (3430, 3439); (3457, 3459); (3530, 3530);
   (3535, 3540); (3542, 3542); (3544, 3551); (3558, 3567); (3570, 3571); (3633, 3633);
   (3635, 3642); (3655, 3662); (3664, 3673); (3761, 3761); (3763, 3772); (3784, 3789);
   (3792, 3801); (3864, 3865); (3872, 3881); (3893, 3893); (3895, 3895); (3897, 3897);
   (3902, 3903); (3953, 3972); (3974, 3975); (3981, 3991); (3993, 4028); (4038, 4038);
   (4139, 4158); (4160, 4169); (4182, 4185); (4190, 4192); (4194, 4196); (4199, 4205);
   (4209, 4212); (4226, 4237); (4239, 4253); (4957, 4959); (4969, 4977); (5906, 5909);
   (5938, 5940); (5970, 5971); (6002, 6003); (6068, 6099); (6109, 6109); (6112, 6121);
   (6155, 6157); (6159, 6169); (6313, 6313); (6432, 6443); (6448, 6459); (6470, 6479);
   (6608, 6618); (6679, 6683); (6741, 6750); (6752, 6780); (6783, 6793); (6800, 6809);
   (6832, 6845); (6847, 6862); (6912, 6916); (6964, 6980); (6992, 7001); (7019, 7027);
   (7040, 7042); (7073, 7085); (7088, 7097); (7142, 7155); (7204, 7223); (7232, 7241);
   (7248, 7257); (7376, 7378); (7380, 7400); (7405, 7405); (7412, 7412); (7415, 7417);
   (7616, 7679); (8255, 8256); (8276, 8276); (8400, 8412); (8417, 8417); (8421, 8432);
   (11503, 11505); (11647, 11647); (11744, 11775); (12330, 12335); (12441, 12442);
   (42528, 42537); (42607, 42607); (42612, 42621); (42654, 42655); (42736, 42737);
   (43010, 43010); (43014, 43014); (43019, 43019); (43043, 43047); (43052, 43052);
   (43136, 43137); (43188, 43205); (43216, 43225); (43232, 43249); (43263, 43273);
   (43302, 43309); (43335, 43347); (43392, 43395); (43443, 43456); (43472, 43481);
   (43493, 43493); (43504, 43513); (43561, 43574); (43587, 43587); (43596, 43597);
   (43600, 43609); (43643, 43645); (43696, 43696); (43698, 43700); (43703, 43704);
   (43710, 43711); (43713, 43713); (43755, 43759); (43765, 43766); (44003, 44010);
   (44012, 44013); (44016, 44025); (64286, 64286); (65024, 65039); (65056, 65071);
   (65075, 65076); (65101, 65103); (65296, 65305); (65343, 65343); (65438, 65439);
   (66045, 66045); (66272, 66272); (66422, 66426); (66720, 66729); (68097, 68099);
   (68101, 68102); (68108, 68111); (68152, 68154); (68159, 68159); (68325, 68326);
   (68900, 68903); (68912, 68921); (69291, 69292); (69446, 69456); (69506, 69509);
   (69632, 69634); (69688, 69702); (69734, 69744); (69747, 69748); (69759, 69762);
   (69808, 69818); (69826, 69826); (69872, 69881); (69888, 69890); (69927, 69940);
   (69942, 69951); (69957, 69958); (70003, 70003); (70016, 70018); (70067, 70080);
   (70089, 70092); (70094, 70105); (70188, 70199); (70206, 70206); (70367, 70378);
   (70384, 70393); (70400, 70403); (70459, 70460); (70462, 70468); (70471, 70472);
   (70475, 70477); (70487, 70487); (70498, 70499); (70502, 70508); (70512, 70516);
   (70709, 70726); (70736, 70745); (70750, 70750); (70832, 70851); (70864, 70873);
   (71087, 71093); (71096, 71104); (71132, 71133); (71216, 71232); (71248, 71257);
   (71339, 71351); (71360, 71369); (71453, 71467); (71472, 71481); (71724, 71738);
   (71904, 71913); (71984, 71989); (71991, 71992); (71995, 71998); (72000, 72000);
   (72002, 72003); (72016, 72025); (72145, 72151); (72154, 72160); (72164, 72164);
   (72193, 72202); (72243, 72249); (72251, 72254); (72263, 72263); (72273, 72283);
   (72330, 72345); (72751, 72758); (72760, 72767); (72784, 72793); (72850, 72871);
   (72873, 72886); (73009, 73014); (73018, 73018); (73020, 73021); (73023, 73029);
   (73031, 73031); (73040, 73049); (73098, 73102); (73104, 73105); (73107, 73111);
   (73120, 73129); (73459, 73462); (92768, 92777); (92864, 92873); (92912, 92916);
   (92976, 92982); (93008, 93017); (94031, 94031); (94033, 94087); (94095, 94098);
   (94180, 94180); (94192, 94193); (113821, 113822); (118528, 118573);
   (118576, 118598); (119141, 119145); (119149, 119154); (119163, 119170);
   (119173, 119179); (119210, 119213); (119362, 119364); (120782, 120831);
   (121344, 121398); (121403, 121452); (121461, 121461); (121476, 121476);
   (121499, 121503); (121505, 121519); (122880, 122886); (122888, 122904);
   (122907, 122913); (122915, 122916); (122918, 122922); (123184, 123190);
   (123200, 123209); (123566, 123566); (123628, 123641); (125136, 125142);
   (125252, 125258); (125264, 125273); (130032, 130041); (917760, 917999)].

Definition in_ranges (rs : list (N * N)) (c : char) : bool :=
  existsb (λ r, (r.1 <=? c) && (c <=? r.2)) rs.

Definition xid_start (c : char) : bool := in_ranges XID_Start c.

(** XID_Continue is XID_Start and the digits, marks and connectors. *)
Definition xid_continue (c : char) : bool :=
  xid_start c || in_ranges XID_Continue_only c.

Definition isidentifier (name : str) : bool :=
  match name with
  | [] => false
  | c :: name' => (xid_start c || (c =? 95)) && forallb xid_continue name'
  end.

(** [int(name)] for a name of ASCII digits: the interpreter converts no
    more than [sys.int_info.default_max_str_digits] digits. *)
Definition default_max_str_digits : N := 4300.

Definition int (name : str) : exn + N :=
  if default_max_str_digits <? N.of_nat (length name) then inl ValueError
  else inr (fold_left (λ acc c, 10 * acc + digit c) name 0).

(** The pattern has one group, and gives it no name. *)
Definition groups : N := 1.

(** [lappend]: one more literal, then the rest of the template. *)
Definition literal (t : str) (k : exn + list piece) : exn + list piece :=
  match k with
  | inr ps => inr (Literal t :: ps)
  | inl e => inl e
  end.

(** [addgroup]: a reference to a group the pattern does not have is an
    error. *)
Definition addgroup (index : N) (k : exn + list piece) : exn + list piece :=
  if groups <? index then inl re_error        (* invalid group reference *)
  else match k with
       | inr ps => inr (Group index :: ps)
       | inl e => inl e
       end.

(** The group that [\g<name>] refers to: a number when the name is made
    of ASCII digits; [groupindex[name]] otherwise, where [groupindex]
    is empty.  A number of [MAXGROUPS] or more is an error; it is one
    for [addgroup] as well. *)
Definition group_index (name : str) : exn + N :=
  if forallb is_digit name then int name
  else if isidentifier name then inl IndexError       (* unknown group name *)
  else inl re_error.                        (* bad character in group name *)

Fixpoint parse_template (ts : list token) : exn + list piece :=
  match ts with
  | [] => inr []
  | Dangling :: _ => inl re_error             (* raised one token before *)
  | Chr c :: ts' => ahead ts' (literal [c] (parse_template ts'))
  | Esc c :: ts' =>
      ahead ts'
        (if c =? 103 then                                 (* \g<name> *)
           match ts' with
           | Chr x :: ts'' =>
               if x =? 60 then ahead ts'' (group_name [] ts'')
               else inl re_error                          (* missing < *)
           | _ => inl re_error                            (* missing < *)
           end
         else if c =? 48 then                             (* \0, \0o, \0oo *)
           match ts' with
           | Chr d1 :: ts1 =>
               if is_octdigit d1 then
                 ahead ts1
                   match ts1 with
                   | Chr d2 :: ts2 =>
                       if is_octdigit d2
                       then ahead ts2 (literal [N.land (8 * digit d1 + digit d2) 255]
                                         (parse_template ts2))
                       else literal [N.land (digit d1) 255] (parse_template ts1)
                   | _ => literal [N.land (digit d1) 255] (parse_template ts1)
                   end
               else literal [0] (parse_template ts')
           | _ => literal [0] (parse_template ts')
           end
         else if is_digit c then                          (* \1 .. \99, \ooo *)
           match ts' with
           | Chr d1 :: ts1 =>
               if is_digit d1 then
                 ahead ts1
                   match ts1 with
                   | Chr d2 :: ts2 =>
                       if is_octdigit c && is_octdigit d1 && is_octdigit d2 then
                         ahead ts2
                           (let v := 64 * digit c + 8 * digit d1 + digit d2 in
                            if 255 <? v then inl re_error (* outside of range 0-0o377 *)
                            else literal [v] (parse_template ts2))
                       else addgroup (10 * digit c + digit d1) (parse_template ts1)
                   | _ => addgroup (10 * digit c + digit d1) (parse_template ts1)
                   end
               else addgroup (digit c) (parse_template ts')
           | _ => addgroup (digit c) (parse_template ts')
           end
         else
           match ESCAPES c with
           | Some x => literal [x] (parse_template ts')
           | None =>
               if is_ascii_letter c then inl re_error     (* bad escape *)
               else literal [BACKSLASH; c] (parse_template ts')
           end)
  end
(** [Tokenizer.getuntil(">", "group name")], then the group *)
with group_name (name : str) (ts : list token) : exn + list piece :=
  match ts with
  | [] => inl re_error                        (* missing >, or the name *)
  | t :: ts' =>
      ahead ts'
        match t with
        | Chr c =>
            if c =? 62 then
              match name with
              | [] => inl re_error                        (* missing group name *)
              | _ => match group_index name with
                     | inr index => addgroup index (parse_template ts')
                     | inl e => inl e
                     end
              end
            else group_name (name ++ [c]) ts'
        | Esc c => group_name (name ++ [BACKSLASH; c]) ts'
        | Dangling => inl re_error            (* raised one token before *)
        end
  end.

(** [re._parser.parse_template(repl, pattern)]; [Tokenizer(repl)] reads
    the first token. *)
Definition compile_template (repl : str) : exn + list piece :=
  let ts := tokenize repl in
  ahead ts (parse_template ts).

(** [match.expand] on a compiled template *)
Definition expand_piece (m : re_match) (p : piece) : str :=
  match p with
  | Literal t => t
  | Group 0 => group0 m
  | Group _ => group1 m
  end.

Definition expand_template (ps : list piece) (m : re_match) : str :=
  concat (expand_piece m <$> ps).

(** [re.sub(r'(AC_INIT.*?,\s+)\[.*?\]', repl, s)] *)
Definition re_sub (repl : str) (s : str) : exn + str :=
  match compile_template repl with
  | inr ps => inr (sub_with (expand_template ps) s)
  | inl e => inl e
  end.

(** ** Strings and paths *)

(** [s.split(sep)] for a separator of one character *)
Fixpoint split (sep : char) (s : str) : list str :=
  match s with
  | [] => [[]]
  | c :: s' =>
      if c =? sep then [] :: split sep s'
      else match split sep s' with
           | p :: ps => (c :: p) :: ps
           | [] => [[c]]
           end
  end.

(** [new_version.split('-')[0]]; [split] never returns an empty list, so
    the index 0 is always there. *)
Definition version_prefix (new_version : str) : str :=
  default [] (split DASH new_version !! 0%nat).

(** [r'\1[%s]' % x] *)
Definition replacement (x : str) : str :=
  lit "\1[" ++ x ++ lit "]".

(** [posixpath.join(a, b)] *)
Definition os_path_join (a b : str) : str :=
  match b with
  | 47 :: _ => b
  | _ => match last a with
         | None | Some 47 => a ++ b
         | Some _ => a ++ [47] ++ b
         end
  end.

(** The text that replaces the content of configure.ac: lines 13 to 15
    of the source. *)
Definition new_content (new_version : str) (text : str) : exn + str :=
  re_sub (replacement (version_prefix new_version)) text.

(** ** Effects

    The method reads and writes a file and runs a command; the base
    class and [run_command] belong to tito.  A [world] is the file
    system, as a map from paths to the text of regular files, next to
    whatever else the collaborators own (the git index, the spec file
    machinery).  A [state] is the world and the record of the effects
    performed so far; collaborators see the world only. *)

Record world {Repo : Type} := World { files : gmap (list N) (list N); repo : Repo }.
Arguments world : clear implicits.
Arguments World {Repo} files repo.

Inductive effect :=
| Read (path : str)                       (* open(path, 'r') ... f.read() *)
| Write (path : str) (content : str)      (* open(path, 'w') ... f.write(content) *)
| RunCommand (cmd : str)                  (* run_command(cmd) *)
| SuperUpdatePackageMetadata (new_version : str).

Record state {Repo : Type} := State { now : world Repo; trace : list effect }.
Arguments state : clear implicits.
Arguments State {Repo} now trace.

(** A computation that may raise: the state is kept either way. *)
Definition M (Repo A : Type) : Type := state Repo → state Repo * (exn + A).

Definition ret {Repo A} (a : A) : M Repo A := λ s, (s, inr a).

Definition raise {Repo A} (e : exn) : M Repo A := λ s, (s, inl e).

Definition bind {Repo A B} (m : M Repo A) (f : A → M Repo B) : M Repo B :=
  λ s, match m s with
       | (s', inr a) => f a s'
       | (s', inl e) => (s', inl e)
       end.

#[global] Instance M_ret {Repo} : MRet (M Repo) := λ A, ret.
#[global] Instance M_bind {Repo} : MBind (M Repo) := λ A B f m, bind m f.

(** The value or exception of a pure step. *)
Definition lift {Repo A} (r : exn + A) : M Repo A :=
  match r with inr a => ret a | inl e => raise e end.

(** [with open(path, 'r') as f: ... f.read()] *)
Definition read_file {Repo} (path : str) : M Repo str :=
  λ s, match files (now s) !! path with
       | Some text => (State (now s) (trace s ++ [Read path]), inr text)
       | None => (s, inl (FileNotFoundError path))
       end.

(** [with open(path, 'w') as f: f.write(content)] *)
Definition write_file {Repo} (path content : str) : M Repo unit :=
  λ s, (State (World (<[path := content]> (files (now s))) (repo (now s)))
              (trace s ++ [Write path content]),
        inr tt).

(** A call to a collaborator, recorded whether it raises or not. *)
Definition call {Repo A} (e : effect) (f : world Repo → world Repo * (exn + A))
  : M Repo A :=
  λ s, let (w, r) := f (now s) in (State w (trace s ++ [e]), r).

(** What the methods use of [self]. *)
Record tagger := Tagger { full_project_dir : str }.

Section CustomVersionTagger.

Context {Repo : Type}.

(** [tito.common.run_command] *)
Variable run_command : str → world Repo → world Repo * (exn + str).

(** [VersionTagger._update_package_metadata] of [tito.tagger] *)
Variable VersionTagger_update_package_metadata :
  tagger → str → world Repo → world Repo * (exn + unit).

(** Lines 10 to 18 of the source. *)
Definition _update_configure_ac (self : tagger) (new_version : str) : M Repo unit :=
  let configure_ac := os_path_join (full_project_dir self) (lit "configure.ac") in
  text ← read_file configure_ac;
  content ← lift (new_content new_version text);
  write_file configure_ac content;;
  call (RunCommand (lit "git add " ++ configure_ac))
       (run_command (lit "git add " ++ configure_ac));;
  mret tt.

(** Lines 20 to 22 of the source. *)
Definition _update_package_metadata (self : tagger) (new_version : str) : M Repo unit :=
  _update_configure_ac self new_version;;
  call (SuperUpdatePackageMetadata new_version)
       (VersionTagger_update_package_metadata self new_version).

End CustomVersionTagger.

(** ** Vocabulary of the statements *)

(** A non-empty run of whitespace, what [\s+] takes. *)
Definition spaces (w : str) : Prop :=
  w ≠ [] ∧ Forall (λ c, is_space c = true) w.

(** [k] fails at every position of [d], the text that follows being [tl]. *)
Definition fails_before {A} (k : str → option A) (d tl : str) : Prop :=
  ∀ d1 d2, d = d1 ++ d2 → d2 ≠ [] → k (d2 ++ tl) = None.

(** The replacement when the template is [\1[x]] and [x] has no escape. *)
Definition literal_repl (x : str) (m : re_match) : str :=
  group1 m ++ LBRACKET :: x ++ [RBRACKET].

(** [s.startswith(p)] *)
Fixpoint startswith (p s : str) : bool :=
  match p, s with
  | [], _ => true
  | x :: p', c :: s' => (c =? x) && startswith p' s'
  | _ :: _, [] => false
  end.

(** The number of positions of [s] where [p] starts. *)
Fixpoint count_word (p s : str) : nat :=
  (if startswith p s then 1 else 0)
  + match s with [] => 0 | _ :: s' => count_word p s' end.

(** An invocation of the macro as it stands in a file: the text before
    [AC_INIT], the text between [AC_INIT] and the comma, the whitespace
    between the comma and the opening bracket, and the value between
    the brackets. *)
Record invocation := Invocation { before : str; args : str; gap : str; value : str }.

(** The invocation with [x] between the brackets. *)
Definition written (i : invocation) (x : str) : str :=
  before i ++ AC_INIT ++ args i ++ COMMA :: gap i ++ LBRACKET :: x ++ [RBRACKET].

(** The invocation is the first [AC_INIT] after the text before it, its
    first comma comes on the line of [AC_INIT], whitespace follows the
    comma, and the value closes at its first bracket, on its line. *)
Definition on_one_line (i : invocation) : Prop :=
  count_word AC_INIT (before i ++ AC_INIT) = 1%nat
  ∧ (COMMA ∉ args i) ∧ (LF ∉ args i) ∧ spaces (gap i)
  ∧ (RBRACKET ∉ value i) ∧ (LF ∉ value i).

(** The path the method works on: line 11 of the source. *)
Definition configure_ac_of (self : tagger) : str :=
  os_path_join (full_project_dir self) (lit "configure.ac").

(** ["git add %s" % path] *)
Definition git_add (path : str) : str := lit "git add " ++ path.

(** A version that the replacement template takes as it is: no
    backslash, the escape character of templates, in the part that is
    written. *)
Definition plain_version (new_version : str) : Prop :=
  BACKSLASH ∉ version_prefix new_version.

(** The commands handed to [run_command], in order. *)
Definition commands_run (t : list effect) : list str :=
  omap (λ e, match e with RunCommand cmd => Some cmd | _ => None end) t.

(** A text cut at its bracketed values: the text before each value,
    up to its opening bracket, and the value; [f] says what stands
    between the brackets. *)
Definition with_values (segs : list (str * str)) (f : str → str) : str :=
  concat ((λ sb, sb.1 ++ LBRACKET :: f sb.2 ++ [RBRACKET]) <$> segs).

(** The text before a value ends with [AC_INIT], more of its line, a
    comma and whitespace. *)
Definition after_macro (u : str) : Prop :=
  ∃ p d w, u = p ++ AC_INIT ++ d ++ COMMA :: w ∧ (LF ∉ d) ∧ spaces w.

#[global] Instance spaces_dec w : Decision (spaces w).
Proof. unfold spaces. apply _. Defined.

#[global] Instance on_one_line_dec i : Decision (on_one_line i).
Proof. unfold on_one_line. apply _. Defined.

#[global] Instance plain_version_dec v : Decision (plain_version v).
Proof. unfold plain_version. apply _. Defined.

(** * Properties *)

(** ** The pattern, piece by piece *)

Lemma lazy_dots_cons {A} (k : list N → option A) c s :
  lazy_dots k (c :: s) =
    match k (c :: s) with
    | Some a => Some ([], a)
    | None => if is_dot c then (λ r, (c :: r.1, r.2)) <$> lazy_dots k s else None
    end.
Proof. reflexivity. Qed.

Lemma is_dot_true c : is_dot c = true ↔ c ≠ LF.
Proof. unfold is_dot. destruct (N.eqb_spec c LF); simpl; split; congruence. Qed.

Lemma close_intro b r :
  RBRACKET ∉ b → LF ∉ b →
  lazy_dots (lit_char RBRACKET accept) (b ++ RBRACKET :: r) = Some (b, r).
Proof.
  induction b as [|c b IH]; intros Hb Hn.
  - reflexivity.
  - apply not_elem_of_cons in Hb as [Hc Hb]. apply not_elem_of_cons in Hn as [Hl Hn].
    simpl app. rewrite lazy_dots_cons. simpl lit_char.
    destruct (N.eqb_spec c RBRACKET); [congruence|].
    replace (is_dot c) with true by (symmetry; apply is_dot_true; congruence).
    rewrite IH by done. reflexivity.
Qed.

Lemma close_elim s b r :
  lazy_dots (lit_char RBRACKET accept) s = Some (b, r) →
  s = b ++ RBRACKET :: r ∧ (RBRACKET ∉ b) ∧ (LF ∉ b).
Proof.
  revert b. induction s as [|c s IH]; intros b H.
  - discriminate.
  - rewrite lazy_dots_cons in H. simpl lit_char in H.
    destruct (N.eqb_spec c RBRACKET) as [->|Hc].
    + injection H as <- <-. split_and!; [done|apply not_elem_of_nil..].
    + destruct (is_dot c) eqn:Hd; [|discriminate].
      apply is_dot_true in Hd.
      destruct (lazy_dots _ s) as [[b' r']|] eqn:E; [|discriminate].
      injection H as <- <-. destruct (IH _ eq_refl) as (-> & ? & ?).
      split_and!; [done|apply not_elem_of_cons; split; done..].
Qed.

(** Replacing a bracketed value further right leaves a failed search for
    the closing bracket failed. *)
Lemma close_none_stable u b r x t :
  RBRACKET ∉ b → LF ∉ b →
  lazy_dots (lit_char RBRACKET accept) (u ++ LBRACKET :: b ++ RBRACKET :: r) = None →
  lazy_dots (lit_char RBRACKET accept) (u ++ LBRACKET :: x ++ RBRACKET :: t) = None.
Proof.
  intros Hb Hn. induction u as [|c u IH]; intros H.
  - exfalso. change ([] ++ LBRACKET :: b ++ RBRACKET :: r)
      with ((LBRACKET :: b) ++ RBRACKET :: r) in H.
    rewrite close_intro in H; [discriminate|..];
      apply not_elem_of_cons; split; done.
  - simpl app in *. rewrite lazy_dots_cons in *. simpl lit_char in *.
    destruct (c =? RBRACKET); [discriminate|].
    destruct (is_dot c); [|done].
    destruct (lazy_dots _ (u ++ LBRACKET :: b ++ _)); [discriminate|].
    rewrite IH; done.
Qed.

Lemma bracketed_intro b r :
  RBRACKET ∉ b → LF ∉ b →
  bracketed (LBRACKET :: b ++ RBRACKET :: r) = Some (b, r).
Proof. intros. unfold bracketed. simpl. by apply close_intro. Qed.

Lemma bracketed_elim s b r :
  bracketed s = Some (b, r) →
  s = LBRACKET :: b ++ RBRACKET :: r ∧ (RBRACKET ∉ b) ∧ (LF ∉ b).
Proof.
  unfold bracketed. destruct s as [|c s]; [discriminate|]. simpl.
  destruct (N.eqb_spec c LBRACKET) as [->|]; [|discriminate].
  intros (-> & ? & ?)%close_elim. done.
Qed.

Lemma bracketed_space c s : is_space c = true → @bracketed (c :: s) = None.
Proof.
  unfold bracketed. simpl. destruct (N.eqb_spec c LBRACKET) as [->|]; [|done].
  discriminate.
Qed.

Lemma greedy_spaces_cons {A} (k : list N → option A) c s :
  greedy_spaces k (c :: s) =
    if is_space c
    then match greedy_spaces k s with
         | Some r => Some (c :: r.1, r.2)
         | None => (λ a, ([], a)) <$> k (c :: s)
         end
    else (λ a, ([], a)) <$> k (c :: s).
Proof. reflexivity. Qed.

Lemma greedy_spaces_intro w s a :
  Forall (λ c, is_space c = true) w →
  bracketed s = Some a →
  greedy_spaces bracketed (w ++ s) = Some (w, a).
Proof.
  intros Hw Hs. induction Hw as [|c w Hc Hw IH].
  - destruct s as [|c s]; [discriminate|]. simpl app. rewrite greedy_spaces_cons.
    destruct (is_space c) eqn:E; [by rewrite bracketed_space in Hs|].
    by rewrite Hs.
  - simpl app. rewrite greedy_spaces_cons. by rewrite Hc, IH.
Qed.

Lemma greedy_spaces_elim s w a :
  greedy_spaces bracketed s = Some (w, a) →
  ∃ s', s = w ++ s' ∧ Forall (λ c, is_space c = true) w ∧ bracketed s' = Some a.
Proof.
  revert w. induction s as [|c s IH]; intros w.
  - discriminate.
  - rewrite greedy_spaces_cons. destruct (is_space c) eqn:E.
    + destruct (greedy_spaces bracketed s) as [[w' a']|] eqn:G.
      * intros [= <- <-]. destruct (IH _ eq_refl) as (s' & -> & ? & ?).
        exists s'. split_and!; [done| by constructor | done].
      * by rewrite bracketed_space.
    + destruct (bracketed (c :: s)) eqn:B; [|discriminate].
      intros [= <- <-]. exists (c :: s). done.
Qed.

Lemma greedy_spaces_none_stable z b r x t :
  RBRACKET ∉ b → LF ∉ b →
  greedy_spaces bracketed (z ++ LBRACKET :: b ++ RBRACKET :: r) = None →
  greedy_spaces bracketed (z ++ LBRACKET :: x ++ RBRACKET :: t) = None.
Proof.
  intros Hb Hn. induction z as [|c z IH]; intros H.
  - exfalso. simpl app in H. rewrite greedy_spaces_cons in H.
    change (is_space LBRACKET) with false in H. cbv iota in H.
    rewrite bracketed_intro in H; done.
  - simpl app in *. rewrite greedy_spaces_cons in *. destruct (is_space c) eqn:E.
    + destruct (greedy_spaces bracketed (z ++ LBRACKET :: b ++ _)); [discriminate|].
      rewrite IH by done. by rewrite bracketed_space.
    + unfold bracketed in *. simpl lit_char in *.
      destruct (c =? LBRACKET); [|done].
      destruct (lazy_dots _ (z ++ LBRACKET :: b ++ _)) eqn:L; [discriminate|].
      by rewrite (close_none_stable _ _ _ _ _ Hb Hn L).
Qed.

Lemma csb_intro w b r :
  spaces w → RBRACKET ∉ b → LF ∉ b →
  comma_spaces_bracketed (COMMA :: w ++ LBRACKET :: b ++ RBRACKET :: r)
  = Some (w, (b, r)).
Proof.
  intros [Hne Hw] Hb Hn. unfold comma_spaces_bracketed. simpl lit_char.
  destruct w as [|c w]; [done|]. inversion_clear Hw as [|?? Hc Hw'].
  simpl. rewrite Hc.
  rewrite (greedy_spaces_intro w _ (b, r)); [done..|by apply bracketed_intro].
Qed.

Lemma csb_elim s w b r :
  comma_spaces_bracketed s = Some (w, (b, r)) →
  s = COMMA :: w ++ LBRACKET :: b ++ RBRACKET :: r
  ∧ spaces w ∧ (RBRACKET ∉ b) ∧ (LF ∉ b).
Proof.
  unfold comma_spaces_bracketed. destruct s as [|c s]; [discriminate|]. simpl.
  destruct (N.eqb_spec c COMMA) as [->|]; [|discriminate].
  destruct s as [|c s]; [discriminate|]. simpl.
  destruct (is_space c) eqn:E; [|discriminate].
  destruct (greedy_spaces bracketed s) as [[w' a']|] eqn:G; [|discriminate].
  intros [= <- ->].
  apply greedy_spaces_elim in G as (s' & -> & Hw & (-> & ? & ?)%bracketed_elim).
  split_and!; [done|split; [done|by constructor]|done..].
Qed.

Lemma csb_none_stable z b r x t :
  RBRACKET ∉ b → LF ∉ b →
  comma_spaces_bracketed (z ++ LBRACKET :: b ++ RBRACKET :: r) = None →
  comma_spaces_bracketed (z ++ LBRACKET :: x ++ RBRACKET :: t) = None.
Proof.
  intros Hb Hn. unfold comma_spaces_bracketed.
  destruct z as [|c z]; [done|]. simpl.
  destruct (c =? COMMA); [|done].
  destruct z as [|c' z]; [done|]. simpl.
  destruct (is_space c'); [|done].
  destruct (greedy_spaces bracketed (z ++ LBRACKET :: b ++ _)) eqn:G; [discriminate|].
  intros _. by rewrite (greedy_spaces_none_stable _ _ _ _ _ Hb Hn G).
Qed.

Lemma fails_before_nil {A} (k : list N → option A) tl : fails_before k [] tl.
Proof. intros d1 d2 H Hne. symmetry in H. apply app_eq_nil in H as [_ ?]. done. Qed.

Lemma fails_before_cons {A} (k : list N → option A) c d tl :
  fails_before k (c :: d) tl ↔ k (c :: d ++ tl) = None ∧ fails_before k d tl.
Proof.
  split.
  - intros H. split.
    + apply (H [] (c :: d)); done.
    + intros d1 d2 -> Hne. apply (H (c :: d1) d2); done.
  - intros [H0 H] d1 d2 E Hne. destruct d1 as [|c' d1]; simpl in E.
    + by subst d2.
    + injection E as -> ->. by apply (H d1 d2).
Qed.

Lemma lazy_dots_intro {A} (k : list N → option A) d tl a :
  LF ∉ d → fails_before k d tl → k tl = Some a →
  lazy_dots k (d ++ tl) = Some (d, a).
Proof.
  intros Hn Hf Hk. induction d as [|c d IH]; simpl app.
  - destruct tl; simpl; by rewrite Hk.
  - apply not_elem_of_cons in Hn as [Hc Hn].
    apply fails_before_cons in Hf as [H0 Hf].
    rewrite lazy_dots_cons, H0.
    replace (is_dot c) with true by (symmetry; apply is_dot_true; congruence).
    by rewrite IH.
Qed.

Lemma lazy_dots_elim {A} (k : list N → option A) s d a :
  lazy_dots k s = Some (d, a) →
  ∃ tl, s = d ++ tl ∧ (LF ∉ d) ∧ fails_before k d tl ∧ k tl = Some a.
Proof.
  revert d. induction s as [|c s IH]; intros d.
  - simpl. destruct (k []) eqn:E; [|discriminate]. intros [= <- <-].
    exists []. split_and!; [done|apply not_elem_of_nil|apply fails_before_nil|done].
  - rewrite lazy_dots_cons. destruct (k (c :: s)) eqn:E.
    + intros [= <- <-]. exists (c :: s).
      split_and!; [done|apply not_elem_of_nil|apply fails_before_nil|done].
    + destruct (is_dot c) eqn:Hd; [|discriminate]. apply is_dot_true in Hd.
      destruct (lazy_dots k s) as [[d' a']|] eqn:L; [|discriminate].
      intros [= <- <-]. destruct (IH _ eq_refl) as (tl & -> & ? & ? & ?).
      exists tl. split_and!; [done| |by apply fails_before_cons|done].
      apply not_elem_of_cons. done.
Qed.

Lemma lazy_dots_none_newline {A} (k : list N → option A) d tl :
  fails_before k d (LF :: tl) → k (LF :: tl) = None →
  lazy_dots k (d ++ LF :: tl) = None.
Proof.
  intros Hf Hk. induction d as [|c d IH]; simpl app.
  - rewrite lazy_dots_cons, Hk. reflexivity.
  - apply fails_before_cons in Hf as [H0 Hf].
    rewrite lazy_dots_cons, H0, IH by done. by destruct (is_dot c).
Qed.

Lemma lit_word_app {A} (k : list N → option A) p s : lit_word p k (p ++ s) = k s.
Proof.
  induction p as [|x p IH]; [done|]. simpl. by rewrite N.eqb_refl.
Qed.

Lemma lit_word_elim {A} (k : list N → option A) p s a :
  lit_word p k s = Some a → ∃ s', s = p ++ s' ∧ k s' = Some a.
Proof.
  revert s. induction p as [|x p IH]; intros s; simpl.
  - eauto.
  - destruct s as [|c s]; [discriminate|]. simpl.
    destruct (N.eqb_spec c x) as [->|]; [|discriminate].
    intros (s' & -> & ?)%IH. eauto.
Qed.

(** Whether a word starts a text that is at least as long is settled
    within that text. *)
Lemma lit_word_within {A} (k : list N → option A) p x tl :
  (length p ≤ length x)%nat →
  lit_word p k (x ++ tl) = lit_word p (λ y, k (y ++ tl)) x.
Proof.
  revert x. induction p as [|c p IH]; intros x Hl; [done|].
  destruct x as [|c' x]; simpl in Hl; [lia|]. simpl.
  destruct (c' =? c); [|done]. apply IH. lia.
Qed.

(** *** Matching at one position *)

(** Both sides of an equation between texts in right-nested form. *)
Ltac list_norm :=
  unfold group0, AC_INIT in *; cbn [app group1 old rest] in *;
  repeat first [rewrite <- app_assoc in * | progress cbn [app] in *].

Lemma match_at_elim s m :
  match_at s = Some m →
  ∃ d w,
    group1 m = AC_INIT ++ d ++ COMMA :: w
    ∧ s = group0 m ++ rest m
    ∧ (LF ∉ d)
    ∧ fails_before comma_spaces_bracketed d
        (COMMA :: w ++ LBRACKET :: old m ++ RBRACKET :: rest m)
    ∧ spaces w ∧ (RBRACKET ∉ old m) ∧ (LF ∉ old m).
Proof.
  unfold match_at.
  destruct (lit_word _ _ s) as [[d [w [b r]]]|] eqn:E; [|discriminate].
  intros [= <-]. apply lit_word_elim in E as (s' & -> & E).
  apply lazy_dots_elim in E as (tl & -> & Hd & Hf & E).
  apply csb_elim in E as (-> & Hw & Hb & Hn).
  exists d, w. unfold group0. cbn [group1 old rest]. split_and!; try done.
  by list_norm.
Qed.

Lemma match_at_intro d w b r :
  LF ∉ d →
  fails_before comma_spaces_bracketed d (COMMA :: w ++ LBRACKET :: b ++ RBRACKET :: r) →
  spaces w → RBRACKET ∉ b → LF ∉ b →
  match_at (AC_INIT ++ d ++ COMMA :: w ++ LBRACKET :: b ++ RBRACKET :: r)
  = Some (Match (AC_INIT ++ d ++ COMMA :: w) b r).
Proof.
  intros Hd Hf Hw Hb Hn. unfold match_at. rewrite lit_word_app.
  rewrite (lazy_dots_intro _ _ _ (w, (b, r))); [done..|by apply csb_intro].
Qed.

Lemma fails_before_stable d w b r x t :
  RBRACKET ∉ b → LF ∉ b →
  fails_before comma_spaces_bracketed d (COMMA :: w ++ LBRACKET :: b ++ RBRACKET :: r) →
  fails_before comma_spaces_bracketed d (COMMA :: w ++ LBRACKET :: x ++ RBRACKET :: t).
Proof.
  intros Hb Hn Hf d1 d2 E Hne. specialize (Hf d1 d2 E Hne).
  replace (d2 ++ COMMA :: w ++ LBRACKET :: x ++ RBRACKET :: t)
    with ((d2 ++ COMMA :: w) ++ LBRACKET :: x ++ RBRACKET :: t)
    by (by rewrite <- app_assoc).
  apply (csb_none_stable _ b r); [done..|]. by rewrite <- app_assoc.
Qed.

(** A match stays a match, with the same group 1, when the bracketed
    value is replaced by one that has neither a closing bracket nor a
    newline, whatever follows. *)
Lemma match_at_some_stable m x t :
  match_at (group0 m ++ rest m) = Some m →
  RBRACKET ∉ x → LF ∉ x →
  match_at (group1 m ++ LBRACKET :: x ++ RBRACKET :: t) = Some (Match (group1 m) x t).
Proof.
  intros (d & w & Hg & _ & Hd & Hf & Hw & Hb & Hn)%match_at_elim Hx Hxn.
  rewrite Hg. rewrite <- (match_at_intro d w x t); [f_equal; by list_norm|try done..].
  by apply (fails_before_stable _ _ (old m) (rest m)).
Qed.

Lemma lazy_dots_none_stable y w b r x t :
  spaces w → RBRACKET ∉ b → LF ∉ b →
  lazy_dots comma_spaces_bracketed (y ++ COMMA :: w ++ LBRACKET :: b ++ RBRACKET :: r) = None →
  lazy_dots comma_spaces_bracketed (y ++ COMMA :: w ++ LBRACKET :: x ++ RBRACKET :: t) = None.
Proof.
  intros Hw Hb Hn. induction y as [|c y IH]; intros H.
  - exfalso. simpl app in H. rewrite lazy_dots_cons, csb_intro in H; done.
  - simpl app in *. rewrite lazy_dots_cons in *.
    destruct (comma_spaces_bracketed (c :: y ++ COMMA :: w ++ LBRACKET :: b ++ _)) eqn:E;
      [discriminate|].
    assert (comma_spaces_bracketed
              (c :: y ++ COMMA :: w ++ LBRACKET :: x ++ RBRACKET :: t) = None) as ->.
    { pose proof (csb_none_stable (c :: y ++ COMMA :: w) b r x t Hb Hn) as S.
      list_norm. by apply S. }
    destruct (is_dot c); [|done].
    destruct (lazy_dots _ (y ++ COMMA :: w ++ LBRACKET :: b ++ _)); [discriminate|].
    by rewrite IH.
Qed.

Lemma lit_word_none_mono {A} (k1 k2 : list N → option A) p s :
  (∀ y, k1 y = None → k2 y = None) →
  lit_word p k1 s = None → lit_word p k2 s = None.
Proof.
  intros Hk. revert s. induction p as [|c p IH]; intros s; simpl; [apply Hk|].
  destruct s as [|c' s]; [done|]. simpl. destruct (c' =? c); [apply IH|done].
Qed.

Lemma match_at_none s :
  match_at s = None ↔ lit_word AC_INIT (lazy_dots comma_spaces_bracketed) s = None.
Proof.
  unfold match_at.
  destruct (lit_word _ _ s) as [[d [w [b r]]]|]; split; done.
Qed.

(** A position before a match where the pattern fails still fails after
    the bracketed value of that match is replaced, whatever follows. *)
Lemma match_at_none_stable p m x t :
  match_at (group0 m ++ rest m) = Some m →
  match_at (p ++ group0 m ++ rest m) = None →
  match_at (p ++ group1 m ++ LBRACKET :: x ++ RBRACKET :: t) = None.
Proof.
  intros (d & w & Hg & _ & Hd & Hf & Hw & Hb & Hn)%match_at_elim.
  rewrite !match_at_none. unfold group0. rewrite Hg.
  replace (p ++ ((AC_INIT ++ d ++ COMMA :: w) ++ [LBRACKET] ++ old m ++ [RBRACKET]) ++ rest m)
    with ((p ++ AC_INIT ++ d) ++ COMMA :: w ++ LBRACKET :: old m ++ RBRACKET :: rest m)
    by (by list_norm).
  replace (p ++ (AC_INIT ++ d ++ COMMA :: w) ++ LBRACKET :: x ++ RBRACKET :: t)
    with ((p ++ AC_INIT ++ d) ++ COMMA :: w ++ LBRACKET :: x ++ RBRACKET :: t)
    by (by list_norm).
  rewrite !(lit_word_within _ AC_INIT (p ++ AC_INIT ++ d))
    by (rewrite !length_app; simpl; lia).
  apply lit_word_none_mono. intros y. by apply lazy_dots_none_stable.
Qed.

(** *** Searching *)

Lemma search_cons c s :
  search (c :: s) =
    match match_at (c :: s) with
    | Some m => Some ([], m)
    | None => (λ r, (c :: r.1, r.2)) <$> search s
    end.
Proof. reflexivity. Qed.

Lemma search_intro pre tl m :
  fails_before match_at pre tl → match_at tl = Some m →
  search (pre ++ tl) = Some (pre, m).
Proof.
  intros Hf Hm. induction pre as [|c pre IH]; simpl app.
  - destruct tl; [discriminate|]. by rewrite search_cons, Hm.
  - apply fails_before_cons in Hf as [H0 Hf].
    by rewrite search_cons, H0, IH.
Qed.

Lemma search_elim s pre m :
  search s = Some (pre, m) →
  s = pre ++ group0 m ++ rest m
  ∧ fails_before match_at pre (group0 m ++ rest m)
  ∧ match_at (group0 m ++ rest m) = Some m.
Proof.
  revert pre. induction s as [|c s IH]; intros pre.
  - discriminate.
  - rewrite search_cons. destruct (match_at (c :: s)) eqn:E.
    + intros [= <- <-]. pose proof E as (d & w & _ & <- & _)%match_at_elim.
      split_and!; [done|apply fails_before_nil|done].
    + destruct (search s) as [[pre' m']|] eqn:L; [|discriminate].
      intros [= <- <-]. destruct (IH _ eq_refl) as (-> & ? & ?).
      split_and!; [done|by apply fails_before_cons|done].
Qed.

Lemma search_none s :
  search s = None ↔ ∀ s1 s2, s = s1 ++ s2 → match_at s2 = None.
Proof.
  split.
  - induction s as [|c s IH]; intros H s1 s2 E.
    + symmetry in E. by apply app_eq_nil in E as [_ ->].
    + rewrite search_cons in H. destruct (match_at (c :: s)) eqn:M; [discriminate|].
      destruct (search s) eqn:L; [discriminate|].
      destruct s1 as [|c' s1]; simpl in E; [by subst|].
      injection E as -> ->. by apply (IH eq_refl s1).
  - induction s as [|c s IH]; intros H.
    + done.
    + rewrite search_cons, (H [] (c :: s)) by done.
      rewrite IH; [done|]. intros s1 s2 ->. by apply (H (c :: s1)).
Qed.

(** After a replacement that has neither a closing bracket nor a
    newline, the same match is found again, whatever follows it. *)
Lemma search_stable s pre m x t :
  search s = Some (pre, m) →
  RBRACKET ∉ x → LF ∉ x →
  search (pre ++ group1 m ++ LBRACKET :: x ++ RBRACKET :: t)
  = Some (pre, Match (group1 m) x t).
Proof.
  intros (-> & Hf & Hm)%search_elim Hx Hn. apply search_intro.
  - intros p1 p2 E Hne. apply match_at_none_stable; [done|]. by apply (Hf p1).
  - by apply match_at_some_stable.
Qed.

(** *** The substitution loop *)

Lemma group0_length m : (0 < length (group0 m))%nat.
Proof. unfold group0. rewrite !length_app. simpl. lia. Qed.

Lemma search_rest_shorter s pre m :
  search s = Some (pre, m) → (length (rest m) < length s)%nat.
Proof.
  intros (-> & _)%search_elim. pose proof (group0_length m).
  rewrite !length_app. lia.
Qed.

Lemma sub_loop_fuel repl n s :
  (length s ≤ n)%nat → sub_loop n repl s = sub_loop (length s) repl s.
Proof.
  revert s. induction (lt_wf n) as [n _ IH]. intros s Hn.
  destruct n as [|n].
  - destruct s; [done|simpl in Hn; lia].
  - destruct s as [|c s]; simpl length.
    + done.
    + cbn [sub_loop]. destruct (search (c :: s)) as [[pre m]|] eqn:E; [|done].
      apply search_rest_shorter in E. simpl in E, Hn.
      rewrite (IH n) by lia. rewrite (IH (length s)) by lia. done.
Qed.

Lemma sub_with_unfold repl s :
  sub_with repl s =
    match search s with
    | Some (pre, m) => pre ++ repl m ++ sub_with repl (rest m)
    | None => s
    end.
Proof.
  unfold sub_with. destruct s as [|c s].
  - done.
  - simpl length. cbn [sub_loop].
    destruct (search (c :: s)) as [[pre m]|] eqn:E; [|done].
    apply search_rest_shorter in E. simpl in E.
    rewrite (sub_loop_fuel _ (length s)) by lia. done.
Qed.

(** *** The template *)

Lemma tokenize_plain x : BACKSLASH ∉ x → tokenize x = Chr <$> x.
Proof.
  induction x as [|c x IH]; [done|]. intros [Hc Hx]%not_elem_of_cons. simpl.
  destruct (N.eqb_spec c BACKSLASH); [done|]. by rewrite IH.
Qed.

Lemma ahead_plain {A} x (k : exn + A) : ahead (Chr <$> x) k = k.
Proof. by destruct x. Qed.

Lemma parse_template_Chr c ts :
  parse_template (Chr c :: ts) = ahead ts (literal [c] (parse_template ts)).
Proof. reflexivity. Qed.

Lemma parse_template_plain x :
  parse_template (Chr <$> x) = inr ((λ c, Literal [c]) <$> x).
Proof.
  induction x as [|c x IH]; [done|].
  rewrite !fmap_cons, parse_template_Chr, ahead_plain, IH. done.
Qed.

Lemma expand_template_plain m g x :
  expand_template (Group g :: ((λ c, Literal [c]) <$> x)) m
  = expand_piece m (Group g) ++ x.
Proof.
  unfold expand_template. rewrite fmap_cons. cbn [concat]. f_equal.
  induction x as [|c x IH]; [done|]. rewrite !fmap_cons. cbn [concat expand_piece app].
  by rewrite IH.
Qed.

Lemma compile_template_plain x :
  BACKSLASH ∉ x →
  compile_template (replacement x)
  = inr (Group 1 :: ((λ c, Literal [c]) <$> LBRACKET :: x ++ [RBRACKET])).
Proof.
  intros Hx. unfold compile_template, replacement.
  change (lit "\1[" ++ x ++ lit "]") with (BACKSLASH :: 49 :: LBRACKET :: x ++ [RBRACKET]).
  change (tokenize (BACKSLASH :: 49 :: LBRACKET :: x ++ [RBRACKET]))
    with (Esc 49 :: tokenize (LBRACKET :: x ++ [RBRACKET])).
  rewrite tokenize_plain.
  - change (addgroup 1 (parse_template (Chr <$> LBRACKET :: x ++ [RBRACKET]))
            = inr (Group 1 :: ((λ c, Literal [c]) <$> LBRACKET :: x ++ [RBRACKET]))).
    by rewrite parse_template_plain.
  - apply not_elem_of_cons. split; [by cbv|]. apply not_elem_of_app. split; [done|].
    apply not_elem_of_cons. split; [by cbv|apply not_elem_of_nil].
Qed.

Lemma sub_loop_ext f g n s :
  (∀ m, f m = g m) → sub_loop n f s = sub_loop n g s.
Proof.
  intros E. revert s. induction n as [|n IH]; intros s; [done|]. simpl.
  destruct (search s) as [[pre m]|]; [|done]. by rewrite E, IH.
Qed.

Lemma new_content_plain v text :
  plain_version v →
  new_content v text = inr (sub_with (literal_repl (version_prefix v)) text).
Proof.
  intros Hx. unfold new_content, re_sub. rewrite compile_template_plain by done.
  f_equal. apply sub_loop_ext. intros m. by rewrite expand_template_plain.
Qed.

(** *** Idempotence of a literal replacement *)

Lemma sub_with_idem x s :
  RBRACKET ∉ x → LF ∉ x →
  sub_with (literal_repl x) (sub_with (literal_repl x) s)
  = sub_with (literal_repl x) s.
Proof.
  intros Hx Hn. remember (length s) as n eqn:Hl. revert s Hl.
  induction (lt_wf n) as [n _ IH]. intros s ->.
  rewrite (sub_with_unfold _ s). destruct (search s) as [[pre m]|] eqn:E.
  - pose proof (search_rest_shorter _ _ _ E) as Hlt.
    pose proof (search_stable _ _ _ x (sub_with (literal_repl x) (rest m)) E Hx Hn) as S.
    rewrite sub_with_unfold.
    replace (pre ++ literal_repl x m ++ sub_with (literal_repl x) (rest m))
      with (pre ++ group1 m ++ LBRACKET :: x ++ RBRACKET :: sub_with (literal_repl x) (rest m))
      by (unfold literal_repl; by list_norm).
    rewrite S. cbn [rest]. rewrite (IH (length (rest m))); [|done|done].
    unfold literal_repl. by list_norm.
  - by rewrite sub_with_unfold, E.
Qed.

(** *** Occurrences of a word *)

Lemma lit_word_startswith {A} (k : list N → option A) p s :
  startswith p s = false → lit_word p k s = None.
Proof.
  revert s. induction p as [|x p IH]; intros s; [done|].
  destruct s as [|c s]; [done|]. simpl. destruct (c =? x); [apply IH|done].
Qed.

Lemma match_at_startswith s : startswith AC_INIT s = false → match_at s = None.
Proof. intros H. apply match_at_none. by apply lit_word_startswith. Qed.

Lemma startswith_app p s : startswith p (p ++ s) = true.
Proof. induction p as [|x p IH]; [done|]. simpl. by rewrite N.eqb_refl. Qed.

Lemma count_word_cons p c s :
  count_word p (c :: s) = ((if startswith p (c :: s) then 1 else 0) + count_word p s)%nat.
Proof. reflexivity. Qed.

Lemma count_word_app_le p a b : (count_word p b ≤ count_word p (a ++ b))%nat.
Proof.
  induction a as [|c a IH]; [done|]. simpl app. rewrite count_word_cons. lia.
Qed.

Lemma count_word_zero_search s : count_word AC_INIT s = 0%nat → search s = None.
Proof.
  intros H. apply search_none. intros s1 s2 ->.
  pose proof (count_word_app_le AC_INIT s1 s2).
  apply match_at_startswith. destruct s2 as [|c s2]; [done|].
  rewrite count_word_cons in *. destruct (startswith AC_INIT (c :: s2)); [lia|done].
Qed.

(** No occurrence starts in [pre] when [pre ++ tl] has as many as [tl]. *)
Lemma count_word_fails_before pre tl :
  count_word AC_INIT (pre ++ tl) = count_word AC_INIT tl →
  fails_before match_at pre tl.
Proof.
  induction pre as [|c pre IH]; intros H; [apply fails_before_nil|].
  simpl app in H. rewrite count_word_cons in H.
  pose proof (count_word_app_le AC_INIT pre tl).
  apply fails_before_cons. split.
  - apply match_at_startswith. simpl app.
    destruct (startswith AC_INIT (c :: pre ++ tl)); [lia|done].
  - apply IH. lia.
Qed.

Lemma search_skip pre tl :
  fails_before match_at pre tl →
  search (pre ++ tl) = (λ r, (pre ++ r.1, r.2)) <$> search tl.
Proof.
  induction pre as [|c pre IH]; intros Hf.
  - simpl. by destruct (search tl) as [[??]|].
  - apply fails_before_cons in Hf as [H0 Hf]. simpl app.
    rewrite search_cons, H0, IH by done. by destruct (search tl) as [[??]|].
Qed.

Lemma startswith_within p x tl :
  (length p ≤ length x)%nat → startswith p (x ++ tl) = startswith p x.
Proof.
  revert x. induction p as [|c p IH]; intros x Hl; [done|].
  destruct x as [|c' x]; simpl in Hl; [lia|]. simpl.
  rewrite IH by lia. done.
Qed.

Lemma count_word_ge_start p s : (1 ≤ count_word p (p ++ s))%nat.
Proof.
  destruct p as [|x p]; simpl app.
  - destruct s; simpl; lia.
  - rewrite count_word_cons.
    change (x :: p ++ s) with ((x :: p) ++ s). rewrite startswith_app. lia.
Qed.

(** Where [AC_INIT] occurs once at the end of a text, the pattern
    matches nowhere before it, whatever follows. *)
Lemma before_fails pre tl :
  count_word AC_INIT (pre ++ AC_INIT) = 1%nat →
  fails_before match_at pre (AC_INIT ++ tl).
Proof.
  induction pre as [|c pre IH]; intros H; [apply fails_before_nil|].
  simpl app in H. rewrite count_word_cons in H.
  pose proof (count_word_app_le AC_INIT pre AC_INIT).
  pose proof (count_word_ge_start AC_INIT []) as H1. rewrite app_nil_r in H1.
  apply fails_before_cons. split.
  - apply match_at_startswith.
    change (c :: pre ++ AC_INIT ++ tl) with ((c :: pre) ++ AC_INIT ++ tl).
    rewrite app_assoc, startswith_within by (rewrite length_app; simpl; lia).
    simpl app. destruct (startswith AC_INIT (c :: pre ++ AC_INIT)); [lia|done].
  - apply IH. lia.
Qed.

(** *** One invocation *)

Lemma comma_free_fails d tl :
  COMMA ∉ d → fails_before comma_spaces_bracketed d tl.
Proof.
  intros Hd d1 d2 -> Hne. destruct d2 as [|c d2]; [done|].
  apply not_elem_of_app in Hd as [_ [Hc _]%not_elem_of_cons].
  unfold comma_spaces_bracketed. simpl.
  destruct (N.eqb_spec c COMMA); [congruence|done].
Qed.

Lemma match_at_on_line a w b r :
  COMMA ∉ a → LF ∉ a → spaces w → RBRACKET ∉ b → LF ∉ b →
  match_at (AC_INIT ++ a ++ COMMA :: w ++ LBRACKET :: b ++ RBRACKET :: r)
  = Some (Match (AC_INIT ++ a ++ COMMA :: w) b r).
Proof.
  intros Hc Hn Hw Hb Hbn. apply match_at_intro; try done. by apply comma_free_fails.
Qed.

(** A line break before the first comma: the lazy [.*?] stops there. *)
Lemma match_at_line_break a1 tl :
  COMMA ∉ a1 → match_at (AC_INIT ++ a1 ++ LF :: tl) = None.
Proof.
  intros Hc. apply match_at_none. rewrite lit_word_app.
  apply lazy_dots_none_newline; [by apply comma_free_fails|done].
Qed.

Lemma sub_with_first repl pre tl m :
  fails_before match_at pre tl → match_at tl = Some m →
  sub_with repl (pre ++ tl) = pre ++ repl m ++ sub_with repl (rest m).
Proof.
  intros Hf Hm. by rewrite sub_with_unfold, (search_intro _ _ _ Hf Hm).
Qed.

Lemma sub_with_none repl s : search s = None → sub_with repl s = s.
Proof. intros H. by rewrite sub_with_unfold, H. Qed.

Lemma sub_with_written x i tl :
  on_one_line i →
  sub_with (literal_repl x) (written i (value i) ++ tl)
  = written i x ++ sub_with (literal_repl x) tl.
Proof.
  intros (Hb & Hc & Hn & Hw & Hv & Hvn). unfold written.
  replace ((before i ++ AC_INIT ++ args i ++ COMMA :: gap i ++ LBRACKET :: value i
            ++ [RBRACKET]) ++ tl)
    with (before i ++ AC_INIT ++ args i ++ COMMA :: gap i ++ LBRACKET :: value i
            ++ RBRACKET :: tl) by (by list_norm).
  rewrite (sub_with_first _ _ _ (Match (AC_INIT ++ args i ++ COMMA :: gap i) (value i) tl)).
  - unfold literal_repl. by list_norm.
  - by apply before_fails.
  - by apply match_at_on_line.
Qed.

(** Every invocation of a file made of invocations is rewritten. *)
Lemma sub_with_all x invs tl :
  Forall on_one_line invs → count_word AC_INIT tl = 0%nat →
  sub_with (literal_repl x) (concat ((λ i, written i (value i)) <$> invs) ++ tl)
  = concat ((λ i, written i x) <$> invs) ++ tl.
Proof.
  intros His Htl. induction His as [|i invs Hi His IH].
  - simpl. apply sub_with_none. by apply count_word_zero_search.
  - rewrite !fmap_cons. cbn [concat]. rewrite <- !app_assoc.
    rewrite sub_with_written by done. by rewrite IH.
Qed.

(** *** The version *)

Lemma split_nonempty sep s : split sep s ≠ [].
Proof.
  destruct s as [|c s]; simpl; [done|].
  destruct (c =? sep); [done|]. by destruct (split sep s).
Qed.

Lemma version_prefix_cons c v :
  version_prefix (c :: v) = if c =? DASH then [] else c :: version_prefix v.
Proof.
  unfold version_prefix. simpl. destruct (c =? DASH); [done|].
  pose proof (split_nonempty DASH v). by destruct (split DASH v).
Qed.


Lemma count_word_after p a s :
  p ≠ [] → count_word p (p ++ a ++ s) = 1%nat → count_word p s = 0%nat.
Proof.
  intros Hp H. destruct p as [|x p]; [done|].
  change ((x :: p) ++ a ++ s) with (x :: p ++ a ++ s) in H.
  rewrite count_word_cons in H.
  change (x :: p ++ a ++ s) with ((x :: p) ++ a ++ s) in H.
  rewrite startswith_app in H.
  pose proof (count_word_app_le (x :: p) (p ++ a) s) as Hle.
  rewrite <- app_assoc in Hle. lia.
Qed.

(** One occurrence of [AC_INIT] in a text: nothing matches before it,
    and nothing is left to find after what follows it. *)
Lemma count_word_once pre a s :
  count_word AC_INIT (pre ++ AC_INIT ++ a ++ s) = 1%nat →
  fails_before match_at pre (AC_INIT ++ a ++ s) ∧ search s = None.
Proof.
  intros H.
  pose proof (count_word_app_le AC_INIT pre (AC_INIT ++ a ++ s)).
  pose proof (count_word_ge_start AC_INIT (a ++ s)).
  split.
  - apply count_word_fails_before. lia.
  - apply count_word_zero_search, (count_word_after AC_INIT a); [done|lia].
Qed.

(** ** The rewritten content *)

(** The first invocation of a text with one occurrence of [AC_INIT]. *)
Lemma sub_with_once x pre a w b post :
  count_word AC_INIT (pre ++ AC_INIT ++ a ++ COMMA :: w ++ LBRACKET :: b ++ RBRACKET :: post)
    = 1%nat →
  COMMA ∉ a → LF ∉ a → spaces w → RBRACKET ∉ b → LF ∉ b →
  sub_with (literal_repl x)
    (pre ++ AC_INIT ++ a ++ COMMA :: w ++ LBRACKET :: b ++ RBRACKET :: post)
  = pre ++ AC_INIT ++ a ++ COMMA :: w ++ LBRACKET :: x ++ RBRACKET :: post.
Proof.
  intros H1 Hc Hn Hw Hb Hbn.
  replace (pre ++ AC_INIT ++ a ++ COMMA :: w ++ LBRACKET :: b ++ RBRACKET :: post)
    with (pre ++ AC_INIT ++ (a ++ COMMA :: w ++ LBRACKET :: b ++ [RBRACKET]) ++ post)
    in H1 by (by list_norm).
  apply count_word_once in H1 as [Hf Hpost].
  replace (AC_INIT ++ (a ++ COMMA :: w ++ LBRACKET :: b ++ [RBRACKET]) ++ post)
    with (AC_INIT ++ a ++ COMMA :: w ++ LBRACKET :: b ++ RBRACKET :: post)
    in Hf by (by list_norm).
  rewrite (sub_with_first _ _ _ _ Hf (match_at_on_line a w b post Hc Hn Hw Hb Hbn)).
  cbn [rest]. rewrite (sub_with_none _ _ Hpost). unfold literal_repl. by list_norm.
Qed.

Lemma count_word_tail p s :
  p ≠ [] → count_word p (p ++ s) = 1%nat → count_word p (tail (p ++ s)) = 0%nat.
Proof.
  intros Hp H. destruct p as [|x p]; [done|].
  change ((x :: p) ++ s) with (x :: p ++ s) in *. cbn [tail].
  rewrite count_word_cons in H.
  change (x :: p ++ s) with ((x :: p) ++ s) in H.
  rewrite startswith_app in H. lia.
Qed.

Lemma search_tail s :
  match_at s = None → search (tail s) = None → search s = None.
Proof.
  intros Hm Ht. destruct s as [|c s]; [done|]. cbn [tail] in Ht.
  by rewrite search_cons, Hm, Ht.
Qed.

(** A line break between [AC_INIT] and the first comma, in a text with one
    occurrence of [AC_INIT]: nothing matches. *)
Lemma search_line_break pre a tl :
  count_word AC_INIT (pre ++ AC_INIT ++ a ++ tl) = 1%nat →
  COMMA ∉ a → LF ∈ a →
  search (pre ++ AC_INIT ++ a ++ tl) = None.
Proof.
  intros H1 Hc Hn. pose proof H1 as [Hf _]%count_word_once.
  rewrite search_skip by done.
  pose proof (count_word_app_le AC_INIT pre (AC_INIT ++ a ++ tl)).
  pose proof (count_word_ge_start AC_INIT (a ++ tl)).
  rewrite search_tail; [done| |].
  - apply list_elem_of_split_l in Hn as (a1 & a2 & -> & Hl).
    apply not_elem_of_app in Hc as [Hc _].
    rewrite <- app_assoc. simpl app. by apply match_at_line_break.
  - apply count_word_zero_search, count_word_tail; [done|lia].
Qed.

Lemma new_content_no_match v text :
  search text = None → plain_version v →
  new_content v text = inr text.
Proof.
  intros Hs Hv. rewrite new_content_plain by done. f_equal. by apply sub_with_none.
Qed.

(** Without a match the substitution returns the text, or raises what
    the template compiler raises. *)
Lemma new_content_no_match_any v text :
  search text = None →
  new_content v text
  = match compile_template (replacement (version_prefix v)) with
    | inr _ => inr text
    | inl e => inl e
    end.
Proof.
  intros Hs. unfold new_content, re_sub.
  destruct (compile_template _) as [e|ps]; [done|]. f_equal. by apply sub_with_none.
Qed.

(** ** The substitution on particular texts *)

Example rewrite_plain :
  new_content (lit "2.0-1") (lit "x AC_INIT([a], [1.0], [b]) y AC_INIT(q,  [zz]) ")
  = inr (lit "x AC_INIT([a], [2.0], [b]) y AC_INIT(q,  [2.0]) ").
Proof. by vm_compute. Qed.

(** [\s+] wants one whitespace character at least. *)
Example no_space_after_comma :
  new_content (lit "2.0") (lit "AC_INIT([phpturd],[1.0])") = inr (lit "AC_INIT([phpturd],[1.0])").
Proof. by vm_compute. Qed.

(** Any Unicode whitespace will do, here a no-break space. *)
Example no_break_space_after_comma :
  new_content (lit "2.0") (lit "AC_INIT([phpturd]," ++ [160] ++ lit "[1.0])")
  = inr (lit "AC_INIT([phpturd]," ++ [160] ++ lit "[2.0])").
Proof. by vm_compute. Qed.

(** The lazy [.*?] goes on to a later comma when the first one is not
    followed by whitespace and a bracket. *)
Example comma_in_first_argument :
  new_content (lit "2.0") (lit "AC_INIT([a,b], [1.0])") = inr (lit "AC_INIT([a,b], [2.0])").
Proof. by vm_compute. Qed.

(** The value ends at the first closing bracket. *)
Example bracket_in_value :
  new_content (lit "2.0") (lit "AC_INIT(x, [1.0[rc]])") = inr (lit "AC_INIT(x, [2.0]])").
Proof. by vm_compute. Qed.

(** An occurrence of the word on an earlier line does no harm. *)
Example word_in_comment :
  new_content (lit "2.0") (lit "dnl AC_INIT below" ++ [LF] ++ lit "AC_INIT(x, [1.0])")
  = inr (lit "dnl AC_INIT below" ++ [LF] ++ lit "AC_INIT(x, [2.0])").
Proof. by vm_compute. Qed.

(** A backslash in the version is an escape of the template: a group
    reference, a control character, or an error, which is raised
    whether the pattern matches or not. *)
Example version_with_group_reference :
  new_content (lit "\g<1>") (lit "AC_INIT(q, [zz])") = inr (lit "AC_INIT(q, [AC_INIT(q, ])").
Proof. by vm_compute. Qed.

Example version_with_escapes :
  new_content (lit "\n\\\101\!") (lit "AC_INIT(q, [zz])")
  = inr (lit "AC_INIT(q, [" ++ [LF] ++ lit "\A\!])").
Proof. by vm_compute. Qed.

Example version_with_bad_escape :
  new_content (lit "1.0\q") (lit "no macro here") = inl re_error.
Proof. by vm_compute. Qed.

(** The name of a group is a number, or an identifier that is looked
    up among the names of the pattern, which has none. *)
Example version_with_group_name :
  new_content (lit "1.0\g<rc>") (lit "no macro here") = inl IndexError
  ∧ new_content (lit "1.0\g<2>") (lit "no macro here") = inl re_error
  ∧ new_content (lit "1.0\g<r c>") (lit "no macro here") = inl re_error
  ∧ new_content (lit "1.0\g<rc") (lit "no macro here") = inl re_error.
Proof. split_and!; by vm_compute. Qed.

(** A backslash that ends the version stands before the closing
    bracket of the template. *)
Example version_with_last_backslash :
  new_content (lit "1.0\") (lit "AC_INIT(q, [zz])") = inr (lit "AC_INIT(q, [1.0\])").
Proof. by vm_compute. Qed.

(** A second rewrite differs from the first for a version with a
    newline, or with a reference to the whole match. *)
Example rewrite_twice_newline :
  let v := [LF] ++ lit "AC_INIT, [z" in
  new_content v (lit "AC_INIT(x, [0])")
  = inr (lit "AC_INIT(x, [" ++ [LF] ++ lit "AC_INIT, [z])")
  ∧ new_content v (lit "AC_INIT(x, [" ++ [LF] ++ lit "AC_INIT, [z])")
    = inr (lit "AC_INIT(x, [" ++ [LF] ++ lit "AC_INIT, [" ++ [LF] ++ lit "AC_INIT, [z])").
Proof. split; by vm_compute. Qed.

Example rewrite_twice_whole_match :
  new_content (lit "\g<0>") (lit "AC_INIT(x, [0])")
  = inr (lit "AC_INIT(x, [AC_INIT(x, [0]])")
  ∧ new_content (lit "\g<0>") (lit "AC_INIT(x, [AC_INIT(x, [0]])")
    = inr (lit "AC_INIT(x, [AC_INIT(x, [AC_INIT(x, [0]]])").
Proof. split; by vm_compute. Qed.

(** [posixpath.join] *)
Example join_directory :
  os_path_join (lit "/src/phpturd") (lit "configure.ac") = lit "/src/phpturd/configure.ac"
  ∧ os_path_join (lit "/src/phpturd/") (lit "configure.ac") = lit "/src/phpturd/configure.ac"
  ∧ os_path_join [] (lit "configure.ac") = lit "configure.ac".
Proof. split_and!; by vm_compute. Qed.

(** ** Claims about the rewritten content *)

(** C1, as first stated, fails on an invocation whose first argument
    starts on the next line: [.] does not match a newline, so the
    lazy [.*?] never reaches the comma and the version stays as it
    was, although [AC_INIT] occurs once and a bracketed value follows
    the first comma. *)
Lemma content_preservation_line_break :
  let C := lit "AC_INIT(" ++ [LF] ++ lit "  [phpturd], [0.1.0], [bugs@example.org])" in
  count_word AC_INIT C = 1%nat
  ∧ new_content (lit "0.2.0-1") C = inr C
  ∧ C ≠ lit "AC_INIT(" ++ [LF] ++ lit "  [phpturd], [0.2.0], [bugs@example.org])".
Proof. split_and!; [by vm_compute..|]. by vm_compute. Qed.

(** C1 (content preservation), amended.  In a text where [AC_INIT]
    occurs once, followed on its line by the first comma, whitespace
    and a bracketed value that closes on its line, rewriting with a
    version whose part before the first dash has no backslash replaces
    that value by this part and changes nothing else: not the text
    before [AC_INIT], not the arguments, not the text after the closing
    bracket. *)
Theorem content_preservation pre a w b post v :
  count_word AC_INIT (pre ++ AC_INIT ++ a ++ COMMA :: w ++ LBRACKET :: b ++ RBRACKET :: post)
    = 1%nat →
  COMMA ∉ a → LF ∉ a → spaces w → RBRACKET ∉ b → LF ∉ b →
  plain_version v →
  new_content v (pre ++ AC_INIT ++ a ++ COMMA :: w ++ LBRACKET :: b ++ RBRACKET :: post)
  = inr (pre ++ AC_INIT ++ a ++ COMMA :: w ++ LBRACKET :: version_prefix v
             ++ RBRACKET :: post).
Proof.
  intros H1 Hc Hn Hw Hb Hbn Hv. rewrite new_content_plain by done.
  by rewrite sub_with_once.
Qed.

Lemma content_preservation_witness :
  new_content (lit "0.2.0-1")
    ((lit "dnl phpturd" ++ [LF]) ++ AC_INIT ++ lit "([phpturd]" ++ COMMA :: lit " "
       ++ LBRACKET :: lit "0.1.0" ++ RBRACKET :: lit ", [bugs@example.org])" ++ [LF])
  = inr ((lit "dnl phpturd" ++ [LF]) ++ AC_INIT ++ lit "([phpturd]" ++ COMMA :: lit " "
       ++ LBRACKET :: version_prefix (lit "0.2.0-1") ++ RBRACKET
       :: lit ", [bugs@example.org])" ++ [LF]).
Proof.
  apply (content_preservation (lit "dnl phpturd" ++ [LF]) (lit "([phpturd]") (lit " ")
           (lit "0.1.0") (lit ", [bugs@example.org])" ++ [LF]) (lit "0.2.0-1"));
    compute_done.
Defined.


(** C3, as first stated, fails on a text with two invocations: the
    second one is rewritten too. *)
Lemma second_occurrence_rewritten :
  let C := lit "AC_INIT([a], [1.0])" ++ [LF] ++ lit "AC_INIT([b], [2.0])" ++ [LF] in
  new_content (lit "3.0-1") C
  = inr (lit "AC_INIT([a], [3.0])" ++ [LF] ++ lit "AC_INIT([b], [3.0])" ++ [LF])
  ∧ new_content (lit "3.0-1") C
    ≠ inr (lit "AC_INIT([a], [3.0])" ++ [LF] ++ lit "AC_INIT([b], [2.0])" ++ [LF]).
Proof. split; by vm_compute. Qed.

(** C3 (several occurrences), amended.  [re.sub] is called without a
    count, so every occurrence is rewritten, each search starting where
    the previous match ended: in a text made of any number of
    invocations, each on one line, followed by text without [AC_INIT],
    every bracketed value is replaced and the rest is unchanged. *)
Theorem every_occurrence_rewritten invs tl v :
  Forall on_one_line invs → count_word AC_INIT tl = 0%nat →
  plain_version v →
  new_content v (concat ((λ i, written i (value i)) <$> invs) ++ tl)
  = inr (concat ((λ i, written i (version_prefix v)) <$> invs) ++ tl).
Proof.
  intros Hi Htl Hv. rewrite new_content_plain by done. by rewrite sub_with_all.
Qed.

Lemma every_occurrence_rewritten_witness :
  let invs := [Invocation [] (lit "([a]") (lit " ") (lit "1.0");
               Invocation (lit ")" ++ [LF]) (lit "([b]") (lit " ") (lit "2.0")] in
  new_content (lit "3.0-1") (concat ((λ i, written i (value i)) <$> invs) ++ lit ")")
  = inr (concat ((λ i, written i (version_prefix (lit "3.0-1"))) <$> invs) ++ lit ")").
Proof.
  apply (every_occurrence_rewritten
           [Invocation [] (lit "([a]") (lit " ") (lit "1.0");
            Invocation (lit ")" ++ [LF]) (lit "([b]") (lit " ") (lit "2.0")]
           (lit ")") (lit "3.0-1")); compute_done.
Defined.

(** C4, as first stated, fails when the line break comes between
    [AC_INIT(] and the first comma: nothing matches and the version
    stays as it was. *)
Lemma split_before_comma_unchanged :
  let C := lit "AC_INIT(" ++ [LF; 9] ++ lit "[phpturd]," ++ [LF; 9] ++ lit "[0.1.0])" in
  new_content (lit "0.2.0-1") C = inr C
  ∧ C ≠ lit "AC_INIT(" ++ [LF; 9] ++ lit "[phpturd]," ++ [LF; 9] ++ lit "[0.2.0])".
Proof. split; by vm_compute. Qed.

(** C4 (invocation split across lines), amended.  The whitespace
    between the comma and the opening bracket may hold line breaks,
    [\s] matches them; the text between [AC_INIT] and the first comma
    may not, [.] does not match them.  In a text where [AC_INIT]
    occurs once, the version is rewritten when no line break comes
    before the first comma, and the text is left as it was when one
    does. *)
Theorem split_across_lines pre a w b post v :
  count_word AC_INIT (pre ++ AC_INIT ++ a ++ COMMA :: w ++ LBRACKET :: b ++ RBRACKET :: post)
    = 1%nat →
  COMMA ∉ a → spaces w → RBRACKET ∉ b → LF ∉ b →
  plain_version v →
  new_content v (pre ++ AC_INIT ++ a ++ COMMA :: w ++ LBRACKET :: b ++ RBRACKET :: post)
  = inr (if bool_decide (LF ∈ a)
         then pre ++ AC_INIT ++ a ++ COMMA :: w ++ LBRACKET :: b ++ RBRACKET :: post
         else pre ++ AC_INIT ++ a ++ COMMA :: w ++ LBRACKET :: version_prefix v
                  ++ RBRACKET :: post).
Proof.
  intros H1 Hc Hw Hb Hbn Hv. rewrite new_content_plain by done. f_equal.
  case_bool_decide as Hn.
  - apply sub_with_none. by apply search_line_break.
  - by apply sub_with_once.
Qed.

Lemma split_across_lines_witness :
  new_content (lit "0.2.0-1")
    ([] ++ AC_INIT ++ lit "([phpturd]" ++ COMMA :: [LF; 32; 32]
       ++ LBRACKET :: lit "0.1.0" ++ RBRACKET :: lit ")")
  = inr (if bool_decide (LF ∈ lit "([phpturd]")
         then [] ++ AC_INIT ++ lit "([phpturd]" ++ COMMA :: [LF; 32; 32]
                ++ LBRACKET :: lit "0.1.0" ++ RBRACKET :: lit ")"
         else [] ++ AC_INIT ++ lit "([phpturd]" ++ COMMA :: [LF; 32; 32]
                ++ LBRACKET :: version_prefix (lit "0.2.0-1") ++ RBRACKET :: lit ")").
Proof.
  apply (split_across_lines [] (lit "([phpturd]") [LF; 32; 32] (lit "0.1.0") (lit ")")
           (lit "0.2.0-1")); compute_done.
Defined.

(** C5, as first stated, fails for a version with a closing bracket:
    the second rewrite stops at the first bracket of the value the
    first rewrite wrote, and the file grows. *)
Lemma rewrite_twice_differs :
  new_content (lit "1.0]") (lit "AC_INIT([phpturd], [0.9])")
  = inr (lit "AC_INIT([phpturd], [1.0]])")
  ∧ new_content (lit "1.0]") (lit "AC_INIT([phpturd], [1.0]])")
    = inr (lit "AC_INIT([phpturd], [1.0]]])")
  ∧ new_content (lit "1.0]") (lit "AC_INIT([phpturd], [1.0]])")
    ≠ inr (lit "AC_INIT([phpturd], [1.0]])").
Proof. split_and!; by vm_compute. Qed.

(** C5 (idempotence), amended.  For any text, and any version whose
    part before the first dash has no closing bracket, no newline and
    no backslash, the rewrite returns a text that a second rewrite with
    the same version returns unchanged: each match of the second
    rewrite is a match of the first, with the value it wrote. *)
Theorem rewrite_idempotent v text :
  plain_version v → RBRACKET ∉ version_prefix v → LF ∉ version_prefix v →
  ∃ once, new_content v text = inr once ∧ new_content v once = inr once.
Proof.
  intros Hv Hb Hn. exists (sub_with (literal_repl (version_prefix v)) text).
  rewrite !new_content_plain by done. split; [done|]. f_equal. by apply sub_with_idem.
Qed.

Lemma rewrite_idempotent_witness :
  ∃ once,
    new_content (lit "0.2.0-1") (lit "AC_INIT([phpturd], [0.1.0]) AC_INIT(x, [y])") = inr once
    ∧ new_content (lit "0.2.0-1") once = inr once.
Proof.
  apply (rewrite_idempotent (lit "0.2.0-1") (lit "AC_INIT([phpturd], [0.1.0]) AC_INIT(x, [y])"));
    compute_done.
Defined.

(** C8, as first stated, fails for a version with a bad escape: the
    replacement template is compiled before the text is searched, so
    that [re.error] is raised although the pattern matches nowhere. *)
Lemma no_pattern_bad_escape :
  search (lit "AC_PREREQ([2.69])") = None
  ∧ new_content (lit "1.0\q-1") (lit "AC_PREREQ([2.69])") = inl re_error
  ∧ new_content (lit "1.0\q-1") (lit "AC_PREREQ([2.69])") ≠ inr (lit "AC_PREREQ([2.69])").
Proof. split_and!; by vm_compute. Qed.

(** C8 (no pattern in the file), amended.  When the pattern matches
    nowhere in the text read, the substitution returns no other text:
    it returns the text read when the replacement template built from
    the version compiles, and raises what the template compiler raises
    when it does not.  The template compiles for every version whose
    part before the first dash has no backslash, so that nothing is
    raised for these. *)
Theorem no_pattern_no_change v text :
  search text = None →
  new_content v text
  = match compile_template (replacement (version_prefix v)) with
    | inr _ => inr text
    | inl e => inl e
    end
  ∧ (plain_version v → new_content v text = inr text).
Proof.
  intros Hs. split; [by apply new_content_no_match_any|].
  intros Hv. by apply new_content_no_match.
Qed.

Lemma no_pattern_no_change_witness :
  let v := lit "0.2.0-1" in
  let text := lit "AC_INIT([phpturd],[0.1.0])" in
  new_content v text
  = match compile_template (replacement (version_prefix v)) with
    | inr _ => inr text
    | inl e => inl e
    end
  ∧ (plain_version v → new_content v text = inr text).
Proof.
  apply (no_pattern_no_change (lit "0.2.0-1") (lit "AC_INIT([phpturd],[0.1.0])")).
  vm_compute. reflexivity.
Defined.

(** ** Claims about the effects *)

Section Effects.

Context {Repo : Type}.
Variable run_command : str → world Repo → world Repo * (exn + str).
Variable VersionTagger_update_package_metadata :
  tagger → str → world Repo → world Repo * (exn + unit).

(** The method on a file that is there, when the substitution returns. *)
Lemma update_configure_ac_found self v (s : state Repo) text content :
  files (now s) !! configure_ac_of self = Some text →
  new_content v text = inr content →
  let path := configure_ac_of self in
  let w := World (<[path := content]> (files (now s))) (repo (now s)) in
  _update_configure_ac run_command self v s
  = (State (run_command (git_add path) w).1
           (trace s ++ [Read path; Write path content; RunCommand (git_add path)]),
     match (run_command (git_add path) w).2 with
     | inr _ => inr tt
     | inl e => inl e
     end).
Proof.
  intros Hf Hc path w. subst path w.
  unfold _update_configure_ac, mbind, M_bind, bind, read_file.
  fold (configure_ac_of self). fold (git_add (configure_ac_of self)). rewrite Hf, Hc.
  cbv [lift ret write_file call mret M_ret now trace files repo].
  destruct (run_command _ _) as [w [e|out]]; cbv [fst snd]; by rewrite <- !app_assoc.
Qed.

(** The method on a file that is there, when the substitution raises. *)
Lemma update_configure_ac_raises self v (s : state Repo) text e :
  files (now s) !! configure_ac_of self = Some text →
  new_content v text = inl e →
  _update_configure_ac run_command self v s
  = (State (now s) (trace s ++ [Read (configure_ac_of self)]), inl e).
Proof.
  intros Hf Hc. unfold _update_configure_ac, mbind, M_bind, bind, read_file.
  fold (configure_ac_of self). by rewrite Hf, Hc.
Qed.

(** C6 (missing file).  When the project directory has no configure.ac,
    the method raises [FileNotFoundError] for that path and leaves the
    state as it found it: no file is written and no command is run.
    The overriding method stops there too, before the base method. *)
Theorem missing_file self v (s : state Repo) :
  files (now s) !! configure_ac_of self = None →
  _update_configure_ac run_command self v s
  = (s, inl (FileNotFoundError (configure_ac_of self)))
  ∧ _update_package_metadata run_command VersionTagger_update_package_metadata self v s
    = (s, inl (FileNotFoundError (configure_ac_of self))).
Proof.
  intros Hf.
  assert (_update_configure_ac run_command self v s
          = (s, inl (FileNotFoundError (configure_ac_of self)))) as E.
  { unfold _update_configure_ac, mbind, M_bind, bind, read_file.
    fold (configure_ac_of self). by rewrite Hf. }
  split; [done|]. unfold _update_package_metadata, mbind, M_bind, bind at 1. by rewrite E.
Qed.

Lemma update_package_metadata_unfold self v (s : state Repo) :
  _update_package_metadata run_command VersionTagger_update_package_metadata self v s
  = match _update_configure_ac run_command self v s with
    | (s1, inr _) =>
        (State (VersionTagger_update_package_metadata self v (now s1)).1
               (trace s1 ++ [SuperUpdatePackageMetadata v]),
         (VersionTagger_update_package_metadata self v (now s1)).2)
    | (s1, inl e) => (s1, inl e)
    end.
Proof.
  unfold _update_package_metadata, mbind, M_bind, bind at 1.
  destruct (_update_configure_ac run_command self v s) as [s1 [e|[]]]; [done|].
  unfold call. by destruct (VersionTagger_update_package_metadata self v (now s1)).
Qed.

(** C7 (order of the two steps).  [_update_package_metadata] runs
    [_update_configure_ac] first, with the tagger's project directory
    and the version; when that returns, the base method is called
    next, with the same version, on the world the first step left, and
    its outcome is the outcome of the whole; when the first step
    raises, the base method is not called.  On a file that is there the
    effects are, in this order: the file read, the file written,
    [git add] run, and, unless [run_command] raised, the base method
    called. *)
Theorem update_package_metadata_order self v (s : state Repo) :
  _update_package_metadata run_command VersionTagger_update_package_metadata self v s
  = match _update_configure_ac run_command self v s with
    | (s1, inr _) =>
        (State (VersionTagger_update_package_metadata self v (now s1)).1
               (trace s1 ++ [SuperUpdatePackageMetadata v]),
         (VersionTagger_update_package_metadata self v (now s1)).2)
    | (s1, inl e) => (s1, inl e)
    end
  ∧ ∀ text content,
      files (now s) !! configure_ac_of self = Some text →
      new_content v text = inr content →
      let path := configure_ac_of self in
      let w := World (<[path := content]> (files (now s))) (repo (now s)) in
      trace (_update_package_metadata run_command VersionTagger_update_package_metadata
               self v s).1
      = trace s
        ++ [Read path; Write path content; RunCommand (git_add path)]
        ++ match (run_command (git_add path) w).2 with
           | inr _ => [SuperUpdatePackageMetadata v]
           | inl _ => []
           end.
Proof.
  split; [apply update_package_metadata_unfold|].
  intros text content Hf Hc path w. rewrite update_package_metadata_unfold.
  rewrite (update_configure_ac_found self v s text content Hf Hc).
  subst path w. cbv zeta.
  destruct (run_command _ _) as [w' [e|out]]; cbn [fst snd trace].
  - by rewrite app_nil_r.
  - by rewrite <- app_assoc.
Qed.


(** C10 (no pattern, implicit), amended.  With configure.ac in the
    project directory and no match of the pattern in it, the method
    still writes the file, with the text it read, so that the file
    system is the one it found, and still hands [git add] with the path
    to [run_command], once, raising only if [run_command] does: this
    when the replacement template built from the version compiles, as
    it does for every version whose part before the first dash has no
    backslash.  When the template does not compile the method raises
    what the compiler raises, after the read: nothing is written and no
    command is run. *)
Theorem no_pattern_still_staged self v (s : state Repo) text :
  files (now s) !! configure_ac_of self = Some text →
  search text = None →
  let path := configure_ac_of self in
  let staged :=
    (State (run_command (git_add path) (now s)).1
           (trace s ++ [Read path; Write path text; RunCommand (git_add path)]),
     match (run_command (git_add path) (now s)).2 with
     | inr _ => inr tt
     | inl e => inl e
     end) in
  _update_configure_ac run_command self v s
  = match compile_template (replacement (version_prefix v)) with
    | inr _ => staged
    | inl e => (State (now s) (trace s ++ [Read path]), inl e)
    end
  ∧ (plain_version v → _update_configure_ac run_command self v s = staged).
Proof.
  intros Hf Hs path staged.
  assert (new_content v text = inr text →
          _update_configure_ac run_command self v s = staged) as Hok.
  { intros Hc. rewrite (update_configure_ac_found self v s text text Hf Hc).
    subst path staged. cbv zeta. rewrite insert_id by done.
    by destruct s as [[fs r] t]. }
  split.
  - pose proof (new_content_no_match_any v text Hs) as Hc.
    destruct (compile_template _) as [e|ps]; [|by apply Hok].
    by apply (update_configure_ac_raises self v s text).
  - intros Hv. by apply Hok, new_content_no_match.
Qed.

End Effects.

(** ** The claims at work

    A project directory [/src/phpturd], a [run_command] that succeeds
    without touching the world, a base method that does the same, and
    no repository state. *)

Lemma missing_file_witness :
  let rc := λ (_ : str) (w : world unit), (w, inr (A:=exn) ([] : str)) in
  let base := λ (_ : tagger) (_ : str) (w : world unit), (w, inr (A:=exn) tt) in
  let s := State (World (∅ : gmap (list N) (list N)) tt) [] in
  let self := Tagger (lit "/src/phpturd") in
  _update_configure_ac rc self (lit "0.2.0-1") s
  = (s, inl (FileNotFoundError (configure_ac_of self)))
  ∧ _update_package_metadata rc base self (lit "0.2.0-1") s
    = (s, inl (FileNotFoundError (configure_ac_of self))).
Proof.
  apply (missing_file (λ _ w, (w, inr [])) (λ _ _ w, (w, inr tt))
           (Tagger (lit "/src/phpturd")) (lit "0.2.0-1")
           (State (World (∅ : gmap (list N) (list N)) tt) [])).
  vm_compute. reflexivity.
Defined.

Lemma update_package_metadata_order_witness :
  let rc := λ (_ : str) (w : world unit), (w, inr (A:=exn) ([] : str)) in
  let base := λ (_ : tagger) (_ : str) (w : world unit), (w, inr (A:=exn) tt) in
  let path := lit "/src/phpturd/configure.ac" in
  let s := State (World {[ path := lit "AC_INIT([phpturd], [0.1.0])" ]} tt) [] in
  trace (_update_package_metadata rc base (Tagger (lit "/src/phpturd")) (lit "0.2.0-1") s).1
  = [Read path; Write path (lit "AC_INIT([phpturd], [0.2.0])");
     RunCommand (lit "git add /src/phpturd/configure.ac");
     SuperUpdatePackageMetadata (lit "0.2.0-1")].
Proof.
  intros rc base path s.
  destruct (update_package_metadata_order rc base (Tagger (lit "/src/phpturd"))
              (lit "0.2.0-1") s) as [_ H].
  apply (H (lit "AC_INIT([phpturd], [0.1.0])") (lit "AC_INIT([phpturd], [0.2.0])"));
    compute_done.
Defined.



(** C10, as first stated, fails for a version with a bad escape: with
    no match in the file the method still raises [re.error] after the
    read, writes nothing and runs no command. *)
Lemma no_pattern_bad_version_aborts :
  let rc := λ (cmd : str) (w : world (list (list N))),
              (World (files w) (repo w ++ [cmd]), inr (A:=exn) ([] : str)) in
  let self := Tagger (lit "/src/phpturd") in
  let path := lit "/src/phpturd/configure.ac" in
  let s := State (World {[ path := lit "AC_PREREQ([2.69])" ]} []) [] in
  let res := _update_configure_ac rc self (lit "1.0\q-1") s in
  files (now s) !! configure_ac_of self = Some (lit "AC_PREREQ([2.69])")
  ∧ search (lit "AC_PREREQ([2.69])") = None
  ∧ res = (State (now s) [Read path], inl re_error)
  ∧ commands_run (trace res.1) = []
  ∧ repo (now res.1) = [].
Proof. split_and!; by vm_compute. Qed.

Lemma no_pattern_still_staged_witness :
  let rc := λ (cmd : str) (w : world (list (list N))),
              (World (files w) (repo w ++ [cmd]), inr (A:=exn) ([] : str)) in
  let self := Tagger (lit "/src/phpturd") in
  let path := configure_ac_of self in
  let v := lit "0.2.0-1" in
  let text := lit "AC_PREREQ([2.69])" in
  let s := State (World {[ lit "/src/phpturd/configure.ac" := text ]} []) [] in
  let staged :=
    (State (rc (git_add path) (now s)).1
           (trace s ++ [Read path; Write path text; RunCommand (git_add path)]),
     match (rc (git_add path) (now s)).2 with
     | inr _ => inr tt
     | inl e => inl e
     end) in
  _update_configure_ac rc self v s
  = match compile_template (replacement (version_prefix v)) with
    | inr _ => staged
    | inl e => (State (now s) (trace s ++ [Read path]), inl e)
    end
  ∧ (plain_version v → _update_configure_ac rc self v s = staged).
Proof.
  apply (no_pattern_still_staged
           (λ cmd (w : world (list (list N))), (World (files w) (repo w ++ [cmd]), inr []))
           (Tagger (lit "/src/phpturd")) (lit "0.2.0-1")
           (State (World {[ lit "/src/phpturd/configure.ac" := lit "AC_PREREQ([2.69])" ]} [])
              [])
           (lit "AC_PREREQ([2.69])")); vm_compute; reflexivity.
Defined.

(** * Further properties of the code *)

(** ** The substitution on any text *)

Lemma sub_with_segments x s :
  ∃ segs tl,
    s = with_values segs id ++ tl
    ∧ sub_with (literal_repl x) s = with_values segs (λ _, x) ++ tl
    ∧ Forall (λ sb, after_macro sb.1 ∧ (RBRACKET ∉ sb.2) ∧ (LF ∉ sb.2)) segs
    ∧ search tl = None.
Proof.
  remember (length s) as n eqn:Hl. revert s Hl.
  induction (lt_wf n) as [n _ IH]. intros s ->.
  rewrite sub_with_unfold. destruct (search s) as [[pre m]|] eqn:E.
  - pose proof (search_rest_shorter _ _ _ E) as Hlt.
    destruct (IH _ Hlt (rest m) eq_refl) as (segs & tl & Hs & Hr & Hf & Ht).
    pose proof E as (-> & _ & Hm)%search_elim.
    apply match_at_elim in Hm as (d & w & Hg & _ & Hd & _ & Hw & Hb & Hn).
    exists ((pre ++ group1 m, old m) :: segs), tl. split_and!.
    + unfold with_values. rewrite fmap_cons. cbn [concat fst snd id].
      fold (with_values segs id). rewrite Hs at 1. by list_norm.
    + unfold with_values. rewrite fmap_cons. cbn [concat fst snd].
      fold (with_values segs (λ _, x)). rewrite Hr. unfold literal_repl. by list_norm.
    + constructor; [|done]. cbn [fst snd]. split_and!; [|done..].
      exists pre, d, w. by rewrite Hg.
    + done.
  - exists [], s. split_and!; [done..|constructor|done].
Qed.

(** X1.  Whatever the text, the rewrite with a plain version changes
    nothing but bracketed values: the text falls into stretches that
    each end with [AC_INIT], the rest of its line up to a comma,
    whitespace and a bracketed value without closing bracket or
    newline, and a rest where the pattern does not match; the result is
    the same text with the version between each of these brackets. *)
Theorem rewrite_changes_values_only v text :
  plain_version v →
  ∃ segs tl,
    text = with_values segs id ++ tl
    ∧ new_content v text = inr (with_values segs (λ _, version_prefix v) ++ tl)
    ∧ Forall (λ sb, after_macro sb.1 ∧ (RBRACKET ∉ sb.2) ∧ (LF ∉ sb.2)) segs
    ∧ search tl = None.
Proof.
  intros Hv. destruct (sub_with_segments (version_prefix v) text)
    as (segs & tl & Hs & Hr & Hf & Ht).
  exists segs, tl. rewrite new_content_plain by done. by rewrite Hr.
Qed.

Lemma rewrite_changes_values_only_witness :
  ∃ segs tl,
    lit "AC_INIT(a, [1]) x AC_INIT(b,[2]) AC_INIT(c,  [3]])" = with_values segs id ++ tl
    ∧ new_content (lit "4-1") (lit "AC_INIT(a, [1]) x AC_INIT(b,[2]) AC_INIT(c,  [3]])")
      = inr (with_values segs (λ _, version_prefix (lit "4-1")) ++ tl)
    ∧ Forall (λ sb, after_macro sb.1 ∧ (RBRACKET ∉ sb.2) ∧ (LF ∉ sb.2)) segs
    ∧ search tl = None.
Proof.
  apply (rewrite_changes_values_only (lit "4-1")
           (lit "AC_INIT(a, [1]) x AC_INIT(b,[2]) AC_INIT(c,  [3]])")).
  compute_done.
Defined.

Lemma sub_with_twice x1 x2 s :
  RBRACKET ∉ x1 → LF ∉ x1 →
  sub_with (literal_repl x2) (sub_with (literal_repl x1) s)
  = sub_with (literal_repl x2) s.
Proof.
  intros Hx Hn. remember (length s) as n eqn:Hl. revert s Hl.
  induction (lt_wf n) as [n _ IH]. intros s ->.
  rewrite (sub_with_unfold (literal_repl x1) s), (sub_with_unfold (literal_repl x2) s).
  destruct (search s) as [[pre m]|] eqn:E.
  - pose proof (search_rest_shorter _ _ _ E) as Hlt.
    pose proof (search_stable _ _ _ x1 (sub_with (literal_repl x1) (rest m)) E Hx Hn) as S.
    rewrite sub_with_unfold.
    replace (pre ++ literal_repl x1 m ++ sub_with (literal_repl x1) (rest m))
      with (pre ++ group1 m ++ LBRACKET :: x1 ++ RBRACKET :: sub_with (literal_repl x1) (rest m))
      by (unfold literal_repl; by list_norm).
    rewrite S. cbn [rest]. rewrite (IH (length (rest m))); [|done|done].
    unfold literal_repl. by list_norm.
  - by rewrite sub_with_unfold, E.
Qed.

(** X2.  The last version wins: rewriting with one version and then
    with another gives what rewriting with the other alone gives, for
    any text, when the first version has no closing bracket, newline or
    backslash before its first dash and the second is plain. *)
Theorem last_version_wins v1 v2 text :
  plain_version v1 → RBRACKET ∉ version_prefix v1 → LF ∉ version_prefix v1 →
  plain_version v2 →
  ∃ first, new_content v1 text = inr first
           ∧ new_content v2 first = new_content v2 text.
Proof.
  intros H1 Hb Hn H2. exists (sub_with (literal_repl (version_prefix v1)) text).
  rewrite !new_content_plain by done. split; [done|]. f_equal. by apply sub_with_twice.
Qed.

Lemma last_version_wins_witness :
  ∃ first,
    new_content (lit "0.2.0-1") (lit "AC_INIT([phpturd], [0.1.0]) AC_INIT(x, [y])") = inr first
    ∧ new_content (lit "0.3.0-1") first
      = new_content (lit "0.3.0-1") (lit "AC_INIT([phpturd], [0.1.0]) AC_INIT(x, [y])").
Proof.
  apply (last_version_wins (lit "0.2.0-1") (lit "0.3.0-1")
           (lit "AC_INIT([phpturd], [0.1.0]) AC_INIT(x, [y])")); compute_done.
Defined.

Lemma match_at_needs s m :
  match_at s = Some m →
  (1 ≤ count_word AC_INIT s)%nat ∧ COMMA ∈ s ∧ LBRACKET ∈ s ∧ RBRACKET ∈ s
  ∧ Exists (λ c, is_space c = true) s.
Proof.
  intros (d & w & Hg & -> & _ & _ & [Hne Hw] & _)%match_at_elim.
  unfold group0. rewrite Hg. split_and!.
  - rewrite <- !app_assoc. apply count_word_ge_start.
  - rewrite !elem_of_app, !elem_of_cons. auto 12.
  - rewrite !elem_of_app, !elem_of_cons. auto 12.
  - rewrite !elem_of_app, !elem_of_cons. auto 12.
  - destruct w as [|c w]; [done|]. inversion_clear Hw.
    rewrite !Exists_app, Exists_cons, Exists_cons. auto 10.
Qed.

(** X3.  What a text must hold to be changed: the word [AC_INIT], a
    comma, a whitespace character, an opening and a closing bracket.
    A text that lacks one of them is returned as it is, for any plain
    version. *)
Theorem unchanged_without_ingredients v text :
  count_word AC_INIT text = 0%nat ∨ COMMA ∉ text ∨ LBRACKET ∉ text ∨ RBRACKET ∉ text
  ∨ Forall (λ c, is_space c = false) text →
  plain_version v →
  new_content v text = inr text.
Proof.
  intros H Hv. apply new_content_no_match; [|done].
  apply search_none. intros s1 s2 ->.
  destruct (match_at s2) as [m|] eqn:E; [exfalso|done].
  apply match_at_needs in E as (Hc & H1 & H2 & H3 & H4).
  pose proof (count_word_app_le AC_INIT s1 s2).
  destruct H as [H|[H|[H|[H|H]]]].
  - lia.
  - apply H, elem_of_app. auto.
  - apply H, elem_of_app. auto.
  - apply H, elem_of_app. auto.
  - apply Forall_app in H as [_ H]. apply Exists_exists in H4 as (c & Hin & Hs).
    rewrite Forall_forall in H. specialize (H c Hin). congruence.
Qed.

Lemma unchanged_without_ingredients_witness :
  new_content (lit "0.2.0-1") (lit "AC_INIT([phpturd],[0.1.0],[bugs@example.org])")
  = inr (lit "AC_INIT([phpturd],[0.1.0],[bugs@example.org])").
Proof.
  apply (unchanged_without_ingredients (lit "0.2.0-1")
           (lit "AC_INIT([phpturd],[0.1.0],[bugs@example.org])")).
  - right. right. right. right. compute_done.
  - compute_done.
Defined.

(** X4.  With a plain version the replacement template compiles, and
    every match is replaced by its group 1, an opening bracket, the
    part of the version before the first dash and a closing bracket. *)
Theorem replacement_expands v :
  plain_version v →
  ∃ ps, compile_template (replacement (version_prefix v)) = inr ps
        ∧ ∀ m, expand_template ps m
               = group1 m ++ [LBRACKET] ++ version_prefix v ++ [RBRACKET].
Proof.
  intros Hv. eexists. split; [by apply compile_template_plain|].
  intros m. by rewrite expand_template_plain.
Qed.

Lemma replacement_expands_witness :
  ∃ ps, compile_template (replacement (version_prefix (lit "1.2.3-1"))) = inr ps
        ∧ ∀ m, expand_template ps m
               = group1 m ++ [LBRACKET] ++ version_prefix (lit "1.2.3-1") ++ [RBRACKET].
Proof. apply (replacement_expands (lit "1.2.3-1")). compute_done. Defined.

(** ** Versions *)

Lemma tokenize_plain_app x y :
  BACKSLASH ∉ x → tokenize (x ++ y) = (Chr <$> x) ++ tokenize y.
Proof.
  induction x as [|c x IH]; intros Hx; [done|].
  apply not_elem_of_cons in Hx as [Hc Hx]. simpl.
  destruct (N.eqb_spec c BACKSLASH); [done|]. by rewrite IH.
Qed.

(** Literal characters in front of tokens that raise [re.error]. *)
Lemma parse_template_plain_error x ts :
  parse_template ts = inl re_error →
  parse_template ((Chr <$> x) ++ ts) = inl re_error.
Proof.
  intros Hts. induction x as [|c x IH]; [done|].
  rewrite fmap_cons. simpl app. rewrite parse_template_Chr, IH.
  unfold ahead. by repeat case_match.
Qed.

Lemma parse_template_group1 ts :
  parse_template (Esc 49 :: Chr LBRACKET :: ts)
  = addgroup 1 (parse_template (Chr LBRACKET :: ts)).
Proof. reflexivity. Qed.

Lemma parse_template_bad_escape c ts :
  is_ascii_letter c = true → ESCAPES c = None → c ≠ 103 →
  parse_template (Esc c :: ts) = inl re_error.
Proof.
  intros Hl He Hg.
  assert ((c =? 103) = false) as H1 by (by apply N.eqb_neq).
  assert ((c =? 48) = false ∧ is_digit c = false) as [H2 H3].
  { unfold is_ascii_letter, is_digit in *.
    apply orb_true_iff in Hl as [[Ha Hb]%andb_true_iff|[Ha Hb]%andb_true_iff];
      apply N.leb_le in Ha, Hb; split;
      first [apply N.eqb_neq; lia
            |apply andb_false_iff; right; apply N.leb_gt; lia]. }
  cbn [parse_template]. rewrite H1, H2, H3, He, Hl.
  unfold ahead. by repeat case_match.
Qed.

Lemma compile_template_bad_escape x c y :
  BACKSLASH ∉ x → is_ascii_letter c = true → ESCAPES c = None → c ≠ 103 →
  compile_template (replacement (x ++ BACKSLASH :: c :: y)) = inl re_error.
Proof.
  intros Hx Hl He Hg. unfold compile_template, replacement.
  change (lit "\1[" ++ (x ++ BACKSLASH :: c :: y) ++ lit "]")
    with (BACKSLASH :: 49 :: (LBRACKET :: x ++ BACKSLASH :: c :: y) ++ [RBRACKET]).
  change (tokenize (BACKSLASH :: 49 :: (LBRACKET :: x ++ BACKSLASH :: c :: y) ++ [RBRACKET]))
    with (Esc 49 :: tokenize ((LBRACKET :: x ++ BACKSLASH :: c :: y) ++ [RBRACKET])).
  replace ((LBRACKET :: x ++ BACKSLASH :: c :: y) ++ [RBRACKET])
    with ((LBRACKET :: x) ++ BACKSLASH :: c :: y ++ [RBRACKET])
    by (simpl; by rewrite <- app_assoc).
  rewrite tokenize_plain_app by (apply not_elem_of_cons; split; [by cbv|done]).
  change (tokenize (BACKSLASH :: c :: y ++ [RBRACKET]))
    with (Esc c :: tokenize (y ++ [RBRACKET])).
  cbv zeta. cbn [ahead]. rewrite fmap_cons. simpl app. rewrite parse_template_group1.
  change (Chr LBRACKET :: (Chr <$> x) ++ Esc c :: tokenize (y ++ [RBRACKET]))
    with ((Chr <$> LBRACKET :: x) ++ Esc c :: tokenize (y ++ [RBRACKET])).
  by rewrite parse_template_plain_error by (by apply parse_template_bad_escape).
Qed.

(** X5.  A version whose part before the first dash has, as its first
    backslash, one followed by an ASCII letter that is neither a
    character escape nor [g], makes the substitution raise [re.error],
    whatever the text, with or without a match in it. *)
Theorem bad_escape_raises v x c y text :
  version_prefix v = x ++ BACKSLASH :: c :: y →
  BACKSLASH ∉ x → is_ascii_letter c = true → ESCAPES c = None → c ≠ 103 →
  new_content v text = inl re_error.
Proof.
  intros Hv Hx Hl He Hg. unfold new_content, re_sub.
  by rewrite Hv, compile_template_bad_escape.
Qed.

Lemma bad_escape_raises_witness :
  new_content (lit "1.0\q-1") (lit "no macro in this text") = inl re_error.
Proof.
  apply (bad_escape_raises (lit "1.0\q-1") (lit "1.0") 113 [] (lit "no macro in this text"));
    compute_done.
Defined.

(** ** Group names and the last backslash *)

Lemma ahead_head {A} ts (k : exn + A) : head ts ≠ Some Dangling → ahead ts k = k.
Proof. destruct ts as [|[] ts]; done. Qed.

(** The tokens of a text that ends with a closing bracket do not start
    with the backslash that ends a string. *)
Lemma tokenize_closed_head y : head (tokenize (y ++ [RBRACKET])) ≠ Some Dangling.
Proof.
  destruct y as [|c [|d y]]; simpl; [done| |]; by destruct (c =? BACKSLASH).
Qed.

Lemma parse_template_plain_app x ts :
  head ts ≠ Some Dangling →
  parse_template ((Chr <$> x) ++ ts)
  = match parse_template ts with
    | inr ps => inr (((λ c, Literal [c]) <$> x) ++ ps)
    | inl e => inl e
    end.
Proof.
  intros Hts. induction x as [|c x IH]; [simpl; by destruct (parse_template ts)|].
  rewrite !fmap_cons. simpl app. rewrite parse_template_Chr, IH.
  rewrite ahead_head by (by destruct x).
  by destruct (parse_template ts).
Qed.

Lemma parse_template_group1_app x ts :
  parse_template (Esc 49 :: (Chr <$> LBRACKET :: x) ++ ts)
  = addgroup 1 (parse_template ((Chr <$> LBRACKET :: x) ++ ts)).
Proof. reflexivity. Qed.

Lemma is_digit_cases c :
  is_digit c = true →
  c = 48 ∨ c = 49 ∨ c = 50 ∨ c = 51 ∨ c = 52 ∨ c = 53 ∨ c = 54 ∨ c = 55 ∨ c = 56 ∨ c = 57.
Proof. unfold is_digit. intros [?%N.leb_le ?%N.leb_le]%andb_true_iff. lia. Qed.

(** An identifier starts with no digit, and has no backslash and no
    closing angle bracket. *)
Lemma isidentifier_first c name :
  isidentifier (c :: name) = true → is_digit c = false.
Proof.
  intros Hid. destruct (is_digit c) eqn:Hd; [|done].
  apply is_digit_cases in Hd. destruct_or!; subst c; by vm_compute in Hid.
Qed.

Lemma xid_continue_plain c : xid_continue c = true → (c ≠ BACKSLASH) ∧ (c ≠ 62).
Proof. intros H. split; intros ->; by vm_compute in H. Qed.

Lemma isidentifier_plain name :
  isidentifier name = true → name ≠ [] ∧ (BACKSLASH ∉ name) ∧ (62 ∉ name).
Proof.
  destruct name as [|c name]; [done|]. intros Hid. split; [done|].
  cbn [isidentifier] in Hid. apply andb_true_iff in Hid as [Hc Hn].
  assert ((c ≠ BACKSLASH) ∧ (c ≠ 62)) as [??].
  { split; intros ->; by vm_compute in Hc. }
  assert ((BACKSLASH ∉ name) ∧ (62 ∉ name)) as [??].
  { induction name as [|d name IH]; [split; apply not_elem_of_nil|].
    cbn [forallb] in Hn. apply andb_true_iff in Hn as [Hd Hn].
    destruct (xid_continue_plain d Hd), (IH Hn).
    split; apply not_elem_of_cons; done. }
  split; apply not_elem_of_cons; done.
Qed.

Lemma group_index_identifier name :
  isidentifier name = true → group_index name = inl IndexError.
Proof.
  intros Hid. unfold group_index. rewrite Hid.
  destruct name as [|c name]; [done|].
  cbn [forallb]. by rewrite (isidentifier_first c name Hid).
Qed.

(** [getuntil] on a name without escapes. *)
Lemma group_name_plain acc name ts :
  62 ∉ name → head ts ≠ Some Dangling →
  group_name acc ((Chr <$> name) ++ Chr 62 :: ts)
  = match acc ++ name with
    | [] => inl re_error
    | _ => match group_index (acc ++ name) with
           | inr index => addgroup index (parse_template ts)
           | inl e => inl e
           end
    end.
Proof.
  intros Hn Hts. revert acc. induction name as [|c name IH]; intros acc.
  - rewrite app_nil_r. simpl. by rewrite ahead_head.
  - apply not_elem_of_cons in Hn as [Hc Hn]. rewrite fmap_cons. simpl app.
    cbn [group_name]. rewrite ahead_head by (by destruct name).
    destruct (N.eqb_spec c 62); [congruence|].
    rewrite IH by done. by rewrite <- app_assoc.
Qed.

Lemma parse_template_unknown_group name ts :
  isidentifier name = true → head ts ≠ Some Dangling →
  parse_template (Esc 103 :: (Chr <$> 60 :: name) ++ Chr 62 :: ts) = inl IndexError.
Proof.
  intros Hid Hts. destruct (isidentifier_plain name Hid) as (Hne & _ & Hgt).
  rewrite fmap_cons. simpl app. cbn [parse_template]. cbn [ahead]. change (103 =? 103) with true. change (60 =? 60) with true.
  cbv iota. rewrite ahead_head by (by destruct name).
  rewrite group_name_plain by done. simpl app.
  rewrite group_index_identifier by done. by destruct name.
Qed.

Lemma compile_template_unknown_group x name y :
  BACKSLASH ∉ x → isidentifier name = true →
  compile_template (replacement (x ++ lit "\g<" ++ name ++ [62] ++ y)) = inl IndexError.
Proof.
  intros Hx Hid. destruct (isidentifier_plain name Hid) as (Hne & Hbs & Hgt).
  unfold compile_template, replacement.
  change (lit "\1[" ++ (x ++ lit "\g<" ++ name ++ [62] ++ y) ++ lit "]")
    with (BACKSLASH :: 49 :: (LBRACKET :: x ++ BACKSLASH :: 103 :: 60 :: name ++ 62 :: y)
            ++ [RBRACKET]).
  change (tokenize (BACKSLASH :: 49 :: (LBRACKET :: x ++ BACKSLASH :: 103 :: 60 :: name ++ 62 :: y)
                      ++ [RBRACKET]))
    with (Esc 49 :: tokenize ((LBRACKET :: x ++ BACKSLASH :: 103 :: 60 :: name ++ 62 :: y)
                                ++ [RBRACKET])).
  replace ((LBRACKET :: x ++ BACKSLASH :: 103 :: 60 :: name ++ 62 :: y) ++ [RBRACKET])
    with ((LBRACKET :: x) ++ BACKSLASH :: 103 :: (60 :: name) ++ 62 :: y ++ [RBRACKET])
    by (simpl; rewrite <- !app_assoc; simpl; by rewrite <- !app_assoc).
  rewrite tokenize_plain_app by (apply not_elem_of_cons; split; [by cbv|done]).
  change (tokenize (BACKSLASH :: 103 :: (60 :: name) ++ 62 :: y ++ [RBRACKET]))
    with (Esc 103 :: tokenize ((60 :: name) ++ 62 :: y ++ [RBRACKET])).
  rewrite tokenize_plain_app by (apply not_elem_of_cons; split; [by cbv|done]).
  change (tokenize (62 :: y ++ [RBRACKET])) with (Chr 62 :: tokenize (y ++ [RBRACKET])).
  cbv zeta. cbn [ahead]. rewrite parse_template_group1_app.
  rewrite parse_template_plain_app by done.
  by rewrite parse_template_unknown_group by (done || apply tokenize_closed_head).
Qed.

(** X14.  A version whose part before the first dash has, as its first
    backslash, the start of a group reference [\g<name>] with an
    identifier as name, makes the substitution raise [IndexError], not
    [re.error]: the name is looked up among the group names of the
    pattern, which has none.  This whatever follows the reference, and
    whatever the text. *)
Theorem unknown_group_raises v x name y text :
  version_prefix v = x ++ lit "\g<" ++ name ++ [62] ++ y →
  BACKSLASH ∉ x → isidentifier name = true →
  new_content v text = inl IndexError.
Proof.
  intros Hv Hx Hid. unfold new_content, re_sub.
  by rewrite Hv, compile_template_unknown_group.
Qed.

Lemma unknown_group_raises_witness :
  new_content (lit "1.0\g<rc>1-1") (lit "AC_INIT([phpturd], [0.1.0])") = inl IndexError.
Proof.
  apply (unknown_group_raises (lit "1.0\g<rc>1-1") (lit "1.0") (lit "rc") (lit "1")
           (lit "AC_INIT([phpturd], [0.1.0])")); [by vm_compute| |by vm_compute].
  compute_done.
Defined.

Lemma compile_template_last_backslash x :
  BACKSLASH ∉ x →
  compile_template (replacement (x ++ [BACKSLASH]))
  = inr (Group 1 :: ((λ c, Literal [c]) <$> LBRACKET :: x) ++ [Literal [BACKSLASH; RBRACKET]]).
Proof.
  intros Hx. unfold compile_template, replacement.
  change (lit "\1[" ++ (x ++ [BACKSLASH]) ++ lit "]")
    with (BACKSLASH :: 49 :: (LBRACKET :: x ++ [BACKSLASH]) ++ [RBRACKET]).
  change (tokenize (BACKSLASH :: 49 :: (LBRACKET :: x ++ [BACKSLASH]) ++ [RBRACKET]))
    with (Esc 49 :: tokenize ((LBRACKET :: x ++ [BACKSLASH]) ++ [RBRACKET])).
  replace ((LBRACKET :: x ++ [BACKSLASH]) ++ [RBRACKET])
    with ((LBRACKET :: x) ++ [BACKSLASH; RBRACKET])
    by (simpl; by rewrite <- app_assoc).
  rewrite tokenize_plain_app by (apply not_elem_of_cons; split; [by cbv|done]).
  change (tokenize [BACKSLASH; RBRACKET]) with [Esc RBRACKET].
  cbv zeta. cbn [ahead]. rewrite parse_template_group1_app.
  by rewrite parse_template_plain_app by done.
Qed.

Lemma expand_template_literals m x :
  concat (expand_piece m <$> ((λ c, Literal [c]) <$> x)) = x.
Proof. induction x as [|c x IH]; [done|]. rewrite !fmap_cons. simpl. by rewrite IH. Qed.

(** X15.  A version whose part before the first dash ends with its
    only backslash raises nothing: in the template the backslash stands
    before the closing bracket, which is no escape, and both are kept,
    so that this part is written between the brackets as it is. *)
Theorem last_backslash_kept v text :
  (∃ x, version_prefix v = x ++ [BACKSLASH] ∧ BACKSLASH ∉ x) →
  new_content v text = inr (sub_with (literal_repl (version_prefix v)) text).
Proof.
  intros (x & Hv & Hx). unfold new_content, re_sub.
  rewrite Hv, compile_template_last_backslash by done.
  f_equal. apply sub_loop_ext. intros m.
  unfold expand_template, literal_repl. rewrite fmap_cons, fmap_app, concat_cons, concat_app.
  rewrite expand_template_literals. simpl. by rewrite <- app_assoc.
Qed.

Lemma last_backslash_kept_witness :
  new_content (lit "1.0\-1") (lit "AC_INIT([phpturd], [0.1.0])")
  = inr (sub_with (literal_repl (version_prefix (lit "1.0\-1")))
           (lit "AC_INIT([phpturd], [0.1.0])")).
Proof.
  apply (last_backslash_kept (lit "1.0\-1") (lit "AC_INIT([phpturd], [0.1.0])")).
  exists (lit "1.0"). split; [by vm_compute|compute_done].
Defined.

Lemma version_prefix_app x r : DASH ∉ x → version_prefix (x ++ DASH :: r) = x.
Proof.
  induction x as [|c x IH]; intros Hx.
  - simpl app. by rewrite version_prefix_cons.
  - apply not_elem_of_cons in Hx as [Hc Hx]. simpl app.
    rewrite version_prefix_cons, IH by done.
    destruct (N.eqb_spec c DASH); [congruence|done].
Qed.

(** X6.  A new release of the same version changes nothing: after a
    rewrite with a version, a rewrite with a version that differs only
    after the first dash returns the text as it is, for any text, when
    the part before the dash has no closing bracket, newline or
    backslash. *)
Theorem release_bump_no_change x r1 r2 text :
  DASH ∉ x → BACKSLASH ∉ x → RBRACKET ∉ x → LF ∉ x →
  ∃ once, new_content (x ++ DASH :: r1) text = inr once
          ∧ new_content (x ++ DASH :: r2) once = inr once.
Proof.
  intros Hd Hb Hr Hn. exists (sub_with (literal_repl x) text).
  rewrite !new_content_plain by (unfold plain_version; by rewrite version_prefix_app).
  rewrite !version_prefix_app by done. split; [done|]. f_equal. by apply sub_with_idem.
Qed.

Lemma release_bump_no_change_witness :
  ∃ once,
    new_content (lit "0.2.0" ++ DASH :: lit "1") (lit "AC_INIT([phpturd], [0.1.0])") = inr once
    ∧ new_content (lit "0.2.0" ++ DASH :: lit "2") once = inr once.
Proof.
  apply (release_bump_no_change (lit "0.2.0") (lit "1") (lit "2")
           (lit "AC_INIT([phpturd], [0.1.0])")); compute_done.
Defined.

(** X7.  An empty version, or one that starts with a dash, does not
    raise: it empties the brackets of every invocation. *)
Theorem empty_version_empties v invs tl :
  v = [] ∨ (∃ r, v = DASH :: r) →
  Forall on_one_line invs → count_word AC_INIT tl = 0%nat →
  new_content v (concat ((λ i, written i (value i)) <$> invs) ++ tl)
  = inr (concat ((λ i, written i []) <$> invs) ++ tl).
Proof.
  intros Hv Hi Htl.
  assert (version_prefix v = []) as E by (by destruct Hv as [->|[r ->]]).
  rewrite new_content_plain by (unfold plain_version; rewrite E; apply not_elem_of_nil).
  by rewrite E, sub_with_all.
Qed.

Lemma empty_version_empties_witness :
  new_content (lit "-1")
    (concat ((λ i, written i (value i))
               <$> [Invocation [] (lit "([phpturd]") (lit " ") (lit "0.1.0")]) ++ lit ")")
  = inr (concat ((λ i, written i [])
                   <$> [Invocation [] (lit "([phpturd]") (lit " ") (lit "0.1.0")]) ++ lit ")").
Proof.
  apply (empty_version_empties (lit "-1")
           [Invocation [] (lit "([phpturd]") (lit " ") (lit "0.1.0")] (lit ")")).
  - right. by exists (lit "1").
  - compute_done.
  - compute_done.
Defined.

(** ** Effects when a step fails *)

Section Failures.

Context {Repo : Type}.
Variable run_command : str → world Repo → world Repo * (exn + str).
Variable VersionTagger_update_package_metadata :
  tagger → str → world Repo → world Repo * (exn + unit).

(** X8.  A version whose replacement template does not compile stops
    the method after the file was read: what the template compiler
    raised is raised ([re.error], or [IndexError] for a group name that
    is an identifier), the world is the one found, nothing is written,
    no command is run, and the overriding method does not reach the
    base method. *)
Theorem bad_template_nothing_written self v (s : state Repo) text e :
  files (now s) !! configure_ac_of self = Some text →
  compile_template (replacement (version_prefix v)) = inl e →
  _update_configure_ac run_command self v s
  = (State (now s) (trace s ++ [Read (configure_ac_of self)]), inl e)
  ∧ _update_package_metadata run_command VersionTagger_update_package_metadata self v s
    = (State (now s) (trace s ++ [Read (configure_ac_of self)]), inl e).
Proof.
  intros Hf Hc.
  assert (new_content v text = inl e) as E
    by (unfold new_content, re_sub; by rewrite Hc).
  rewrite update_package_metadata_unfold.
  by rewrite (update_configure_ac_raises run_command self v s text e Hf E).
Qed.

(** X9.  When [run_command] raises, the method raises the same
    exception after the file was written: the world is the one
    [run_command] left of the rewritten file system, and the overriding
    method does not reach the base method. *)
Theorem staging_failure_propagates self v (s : state Repo) text content w' e :
  files (now s) !! configure_ac_of self = Some text →
  new_content v text = inr content →
  let path := configure_ac_of self in
  let w := World (<[path := content]> (files (now s))) (repo (now s)) in
  run_command (git_add path) w = (w', inl e) →
  _update_configure_ac run_command self v s
  = (State w' (trace s ++ [Read path; Write path content; RunCommand (git_add path)]), inl e)
  ∧ _update_package_metadata run_command VersionTagger_update_package_metadata self v s
    = (State w' (trace s ++ [Read path; Write path content; RunCommand (git_add path)]),
       inl e).
Proof.
  intros Hf Hc path w Hr. rewrite update_package_metadata_unfold.
  rewrite (update_configure_ac_found run_command self v s text content Hf Hc).
  fold path. fold w. by rewrite Hr.
Qed.

(** X10.  The method writes no file but configure.ac: any other path
    holds after the call what it held before, whether the call returns
    or raises, as long as [run_command] leaves that path alone. *)
Theorem other_files_untouched self v (s : state Repo) p :
  p ≠ configure_ac_of self →
  (∀ cmd w, files (run_command cmd w).1 !! p = files w !! p) →
  files (now (_update_configure_ac run_command self v s).1) !! p = files (now s) !! p.
Proof.
  intros Hp Hrc. destruct (files (now s) !! configure_ac_of self) as [text|] eqn:Hf.
  - destruct (new_content v text) as [e|content] eqn:Hc.
    + by rewrite (update_configure_ac_raises run_command self v s text e Hf Hc).
    + rewrite (update_configure_ac_found run_command self v s text content Hf Hc).
      cbn [fst now]. rewrite Hrc. cbn [files]. by rewrite lookup_insert_ne.
  - unfold _update_configure_ac, mbind, M_bind, bind, read_file.
    fold (configure_ac_of self). by rewrite Hf.
Qed.


End Failures.

Lemma bad_template_nothing_written_witness :
  let rc := λ (_ : str) (w : world unit), (w, inr (A:=exn) ([] : str)) in
  let base := λ (_ : tagger) (_ : str) (w : world unit), (w, inr (A:=exn) tt) in
  let self := Tagger (lit "/src/phpturd") in
  let s := State (World {[ lit "/src/phpturd/configure.ac"
                           := lit "AC_INIT([phpturd], [0.1.0])" ]} tt) [] in
  _update_configure_ac rc self (lit "1.0\g<rc>-1") s
  = (State (now s) (trace s ++ [Read (configure_ac_of self)]), inl IndexError)
  ∧ _update_package_metadata rc base self (lit "1.0\g<rc>-1") s
    = (State (now s) (trace s ++ [Read (configure_ac_of self)]), inl IndexError).
Proof.
  apply (bad_template_nothing_written (λ _ w, (w, inr [])) (λ _ _ w, (w, inr tt))
           (Tagger (lit "/src/phpturd")) (lit "1.0\g<rc>-1")
           (State (World {[ lit "/src/phpturd/configure.ac"
                            := lit "AC_INIT([phpturd], [0.1.0])" ]} tt) [])
           (lit "AC_INIT([phpturd], [0.1.0])")); vm_compute; reflexivity.
Defined.

Lemma staging_failure_propagates_witness :
  let rc := λ (cmd : str) (w : world unit), (w, inl (B:=str) (RunCommandException cmd)) in
  let base := λ (_ : tagger) (_ : str) (w : world unit), (w, inr (A:=exn) tt) in
  let self := Tagger (lit "/src/phpturd") in
  let path := lit "/src/phpturd/configure.ac" in
  let s := State (World {[ path := lit "AC_INIT([phpturd], [0.1.0])" ]} tt) [] in
  let w' := World (<[path := lit "AC_INIT([phpturd], [0.2.0])"]> (files (now s))) tt in
  _update_configure_ac rc self (lit "0.2.0-1") s
  = (State w' (trace s ++ [Read (configure_ac_of self);
                           Write (configure_ac_of self) (lit "AC_INIT([phpturd], [0.2.0])");
                           RunCommand (git_add (configure_ac_of self))]),
     inl (RunCommandException (lit "git add /src/phpturd/configure.ac")))
  ∧ _update_package_metadata rc base self (lit "0.2.0-1") s
    = (State w' (trace s ++ [Read (configure_ac_of self);
                             Write (configure_ac_of self) (lit "AC_INIT([phpturd], [0.2.0])");
                             RunCommand (git_add (configure_ac_of self))]),
       inl (RunCommandException (lit "git add /src/phpturd/configure.ac"))).
Proof.
  apply (staging_failure_propagates (λ cmd w, (w, inl (RunCommandException cmd)))
           (λ _ _ w, (w, inr tt)) (Tagger (lit "/src/phpturd")) (lit "0.2.0-1")
           (State (World {[ lit "/src/phpturd/configure.ac"
                            := lit "AC_INIT([phpturd], [0.1.0])" ]} tt) [])
           (lit "AC_INIT([phpturd], [0.1.0])") (lit "AC_INIT([phpturd], [0.2.0])"));
    compute_done.
Defined.

Lemma other_files_untouched_witness :
  let rc := λ (_ : str) (w : world unit), (w, inr (A:=exn) ([] : str)) in
  let s := State (World (<[ lit "/src/phpturd/phpturd.spec" := lit "Version: 0.1.0" ]>
                           {[ lit "/src/phpturd/configure.ac"
                              := lit "AC_INIT([phpturd], [0.1.0])" ]}) tt) [] in
  files (now (_update_configure_ac rc (Tagger (lit "/src/phpturd")) (lit "0.2.0-1") s).1)
    !! lit "/src/phpturd/phpturd.spec"
  = files (now s) !! lit "/src/phpturd/phpturd.spec".
Proof.
  apply (other_files_untouched (λ _ w, (w, inr [])) (Tagger (lit "/src/phpturd"))
           (lit "0.2.0-1")
           (State (World (<[ lit "/src/phpturd/phpturd.spec" := lit "Version: 0.1.0" ]>
                            {[ lit "/src/phpturd/configure.ac"
                               := lit "AC_INIT([phpturd], [0.1.0])" ]}) tt) [])
           (lit "/src/phpturd/phpturd.spec")).
  - by vm_compute.
  - intros cmd w. reflexivity.
Defined.

(** ** The file after the call, and its path *)



Lemma last_snoc_char (d : list N) c : last (d ++ [c]) = Some c.
Proof. apply last_snoc. Qed.

(** X13.  A slash at the end of the project directory makes no
    difference: for a directory that is not empty and does not end
    with a slash, the path of configure.ac is the directory, a slash
    and [configure.ac], with or without a slash added to the
    directory. *)
Theorem trailing_slash_ignored d :
  d ≠ [] → last d ≠ Some 47 →
  configure_ac_of (Tagger d) = d ++ lit "/configure.ac"
  ∧ configure_ac_of (Tagger (d ++ [47])) = d ++ lit "/configure.ac".
Proof.
  intros Hd Hl. unfold configure_ac_of, os_path_join. cbn [full_project_dir].
  change (lit "configure.ac") with (99 :: lit "onfigure.ac"). cbv iota.
  rewrite last_snoc_char. split.
  - destruct (last d) as [c|] eqn:E.
    + destruct (N.eqb_spec c 47) as [->|Hc]; [done|].
      destruct c as [|c]; [done|]. by repeat (destruct c as [c|c|]; try done).
    + apply last_None in E. done.
  - by rewrite <- app_assoc.
Qed.

Lemma trailing_slash_ignored_witness :
  configure_ac_of (Tagger (lit "/src/phpturd")) = lit "/src/phpturd" ++ lit "/configure.ac"
  ∧ configure_ac_of (Tagger (lit "/src/phpturd" ++ [47]))
    = lit "/src/phpturd" ++ lit "/configure.ac".
Proof. apply (trailing_slash_ignored (lit "/src/phpturd")); by vm_compute. Defined.
